(** * The TypeScript documentation generator (scripts/documentation/tsdoc.ts)

    A shallow embedding of [TypeScriptDocumentationGenerator] and of the
    JavaScript string and regular-expression operations it calls, followed
    by the properties of the generator that are established on it.

    JavaScript strings are sequences of UTF-16 code units; they are modelled
    as lists of [N].  Numbers that the source computes with ([indexOf]
    results, comparator results) are [Z]. *)

From Stdlib Require Import String Ascii.
From Stdlib Require Import List NArith ZArith Bool Lia.
Import ListNotations.

(** ** JavaScript strings *)

Definition jsstring := list N.

(** A string literal of the source, as code units. *)
Definition lit (s : string) : jsstring :=
  map N_of_ascii (list_ascii_of_string s).
Arguments lit s%_string.

Definition NL : N := 10.     (* "\n" *)
Definition CR : N := 13.     (* "\r" *)
Definition LS : N := 8232.   (* U+2028 *)
Definition PS : N := 8233.   (* U+2029 *)
Definition SPACE : N := 32.
Definition DOLLAR : N := 36.

(** [s.startsWith(pat)], also the test behind [indexOf] and [includes]. *)
Fixpoint startsWith (pat s : jsstring) : bool :=
  match pat, s with
  | [], _ => true
  | _ :: _, [] => false
  | p :: pat', c :: s' => (p =? c)%N && startsWith pat' s'
  end.

(** [s.indexOf(pat)]: the first index at which [pat] occurs, or -1. *)
Fixpoint indexOf_from (pat s : jsstring) (i : Z) : Z :=
  match s with
  | [] => if startsWith pat [] then i else (-1)%Z
  | _ :: s' => if startsWith pat s then i else indexOf_from pat s' (i + 1)%Z
  end.

Definition indexOf (s pat : jsstring) : Z := indexOf_from pat s 0%Z.

(** [s.lastIndexOf(pat)]: the last index at which [pat] occurs, or -1. *)
Fixpoint lastIndexOf_from (pat s : jsstring) (i : Z) : Z :=
  match s with
  | [] => if startsWith pat [] then i else (-1)%Z
  | _ :: s' =>
      let later := lastIndexOf_from pat s' (i + 1)%Z in
      if (later <? 0)%Z then (if startsWith pat s then i else (-1)%Z) else later
  end.

Definition lastIndexOf (s pat : jsstring) : Z := lastIndexOf_from pat s 0%Z.

(** [s.includes(pat)]. *)
Definition includes (s pat : jsstring) : bool := (0 <=? indexOf s pat)%Z.

(** [s.substring(start, end)]: both indices are clamped to [0, length] and
    swapped when [start > end]. *)
Definition substring (s : jsstring) (start end_ : Z) : jsstring :=
  let len := Z.of_nat (length s) in
  let a := Z.min (Z.max start 0) len in
  let b := Z.min (Z.max end_ 0) len in
  let from := Z.min a b in
  let to := Z.max a b in
  firstn (Z.to_nat (to - from)) (skipn (Z.to_nat from) s).

(** [s.toLowerCase()] on the Basic Latin block; module names are TypeScript
    identifiers, other code units are left as they are. *)
Definition lowerUnit (c : N) : N :=
  if ((65 <=? c) && (c <=? 90))%N then (c + 32)%N else c.

Definition toLowerCase (s : jsstring) : jsstring := map lowerUnit s.

(** [a < b] on strings: lexicographic on code units. *)
Fixpoint str_lt (a b : jsstring) : bool :=
  match a, b with
  | _, [] => false
  | [], _ :: _ => true
  | x :: a', y :: b' => (x <? y)%N || ((x =? y)%N && str_lt a' b')
  end.

Definition str_gt (a b : jsstring) : bool := str_lt b a.

(** ** Regular expressions and [String.prototype.replace]

    A compiled regular expression is modelled by what it matches at one
    position: given the input before the position (for the assertion [^])
    and the input from the position on, it returns the length of the match
    and the values of its capture groups. *)

Record MatchResult : Type := {
  matched_len : nat;
  captures : list (option jsstring)
}.

Definition Matcher := jsstring -> jsstring -> option MatchResult.

Definition isDigit (c : N) : bool := ((48 <=? c) && (c <=? 57))%N.

Definition digitValue (c : N) : nat := N.to_nat (c - 48).

(** The value substituted for a reference to capture group [index]
    (1-based), [None] when there is no such group. *)
Definition captureRef (caps : list (option jsstring)) (index : nat)
  : option jsstring :=
  match index with
  | O => None
  | S i => match nth_error caps i with
           | Some (Some v) => Some v
           | Some None => Some []        (* group did not participate *)
           | None => None
           end
  end.

(** ECMAScript's GetSubstitution: the replacement text for one match, from
    the replacement template.  [$$], [$&], [$`], [$'], [$n] and [$nn] are
    replacement patterns; there are no named groups. *)
Fixpoint GetSubstitution (matched before after : jsstring)
    (caps : list (option jsstring)) (template : jsstring) : jsstring :=
  match template with
  | [] => []
  | c :: t1 =>
      if (c =? DOLLAR)%N then
        match t1 with
        | [] => [c]
        | d1 :: t2 =>
            if (d1 =? 36)%N then                         (* $$ *)
              DOLLAR :: GetSubstitution matched before after caps t2
            else if (d1 =? 38)%N then                    (* $& *)
              matched ++ GetSubstitution matched before after caps t2
            else if (d1 =? 96)%N then                    (* $` *)
              before ++ GetSubstitution matched before after caps t2
            else if (d1 =? 39)%N then                    (* $' *)
              after ++ GetSubstitution matched before after caps t2
            else if isDigit d1 then
              let one_digit :=
                match captureRef caps (digitValue d1) with
                | Some v => v ++ GetSubstitution matched before after caps t2
                | None =>
                    c :: d1 :: GetSubstitution matched before after caps t2
                end in
              match t2 with
              | d2 :: t3 =>
                  if isDigit d2 then
                    let index := 10 * digitValue d1 + digitValue d2 in
                    if length caps <? index then one_digit
                    else
                      match captureRef caps index with
                      | Some v =>
                          v ++ GetSubstitution matched before after caps t3
                      | None =>
                          c :: d1 :: d2
                            :: GetSubstitution matched before after caps t3
                      end
                  else one_digit
              | [] => one_digit
              end
            else c :: GetSubstitution matched before after caps t1
        end
      else c :: GetSubstitution matched before after caps t1
  end.

(** [input.replace(re, template)] for a regular expression with the global
    flag: every match found from left to right is replaced, the search
    resuming at the end of the previous match ([skip] counts the code units
    of the current match that are still to be passed over; an empty match
    advances by one code unit). *)
Fixpoint replace_loop (re : Matcher) (template : jsstring) (skip : nat)
    (before s : jsstring) : jsstring :=
  match s with
  | [] =>
      match skip with
      | S _ => []
      | O => match re before [] with
             | Some m => GetSubstitution [] before [] (captures m) template
             | None => []
             end
      end
  | c :: s' =>
      match skip with
      | S k => replace_loop re template k (before ++ [c]) s'
      | O =>
          match re before s with
          | Some m =>
              let len := matched_len m in
              GetSubstitution (firstn len s) before (skipn len s)
                              (captures m) template
              ++ match len with
                 | O => c :: replace_loop re template 0 (before ++ [c]) s'
                 | S k => replace_loop re template k (before ++ [c]) s'
                 end
          | None => c :: replace_loop re template 0 (before ++ [c]) s'
          end
      end
  end.

Definition replace_global (re : Matcher) (input template : jsstring)
  : jsstring :=
  replace_loop re template 0 [] input.

(** ** cleanComment *)

(** The regular expression [/\n/gm] of [cleanComment]. *)
Definition newline_regex : Matcher :=
  fun _ s =>
    match s with
    | c :: _ =>
        if (c =? NL)%N then Some {| matched_len := 1; captures := [] |}
        else None
    | [] => None
    end.

(** [cleanComment(comment)]: [comment.replace(new RegExp(/\n/gm), ' ')]. *)
Definition cleanComment (comment : jsstring) : jsstring :=
  replace_global newline_regex comment (lit " ").

(** ** The sentinel regular expression of insertMethodDescriptionTable

    [new RegExp(`^${startReplacerToken}\\n(.|\\n)*${endReplacerToken}$`,
    'gm')].  Neither sentinel holds a character that is special in a
    pattern, so both stand for themselves. *)

Definition startReplacerToken : jsstring :=
  lit "<!-- docgen-tsdoc-replacer:start __DO NOT EDIT, This section is automatically generated__ -->".

Definition endReplacerToken : jsstring :=
  lit "<!-- docgen-tsdoc-replacer:end -->".

Definition isLineTerminator (c : N) : bool :=
  ((c =? NL) || (c =? CR) || (c =? LS) || (c =? PS))%N.

(** [.] matches every code unit but a line terminator; the group
    [(.|\n)] adds the line feed back. *)
Definition dot (c : N) : bool := negb (isLineTerminator c).

Definition dot_or_nl (c : N) : bool := dot c || (c =? NL)%N.

(** [^] under the [m] flag: at the start of the input or just after a line
    terminator. *)
Definition assert_line_start (before : jsstring) : bool :=
  match before with
  | [] => true
  | _ :: _ => isLineTerminator (last before 0%N)
  end.

(** [$] under the [m] flag: at the end of the input or just before a line
    terminator. *)
Definition assert_line_end (rest : jsstring) : bool :=
  match rest with
  | [] => true
  | c :: _ => isLineTerminator c
  end.

(** Matching a literal: the rest of the input after it. *)
Fixpoint strip_prefix (tok s : jsstring) : option jsstring :=
  match tok, s with
  | [], _ => Some s
  | _ :: _, [] => None
  | t :: tok', c :: s' => if (t =? c)%N then strip_prefix tok' s' else None
  end.

(** The continuation [endTok$] tried at the current position. *)
Definition end_here (endTok s : jsstring) : bool :=
  match strip_prefix endTok s with
  | Some rest => assert_line_end rest
  | None => false
  end.

(** [(.|\n)*endTok$] by backtracking: the greedy star first takes one more
    code unit and only when the rest then fails tries the continuation at
    the current position.  The result is the number of iterations of the
    star in the match found. *)
Fixpoint star_then_end (endTok s : jsstring) : option nat :=
  match s with
  | [] => if end_here endTok [] then Some 0 else None
  | c :: s' =>
      if dot_or_nl c then
        match star_then_end endTok s' with
        | Some n => Some (S n)
        | None => if end_here endTok s then Some 0 else None
        end
      else if end_here endTok s then Some 0 else None
  end.

(** [^startTok\n(.|\n)*endTok$] with the [m] flag, at one position.  The
    capture group holds the code unit of the star's last iteration. *)
Definition sentinel_regex_of (startTok endTok : jsstring) : Matcher :=
  fun before s =>
    if assert_line_start before then
      match strip_prefix (startTok ++ [NL]) s with
      | Some body =>
          match star_then_end endTok body with
          | Some n =>
              Some {| matched_len :=
                        length startTok + 1 + n + length endTok;
                      captures :=
                        [match n with
                         | O => None
                         | S i => Some [nth i body 0%N]
                         end] |}
          | None => None
          end
      | None => None
      end
    else None.

Definition sentinel_regex : Matcher :=
  sentinel_regex_of startReplacerToken endReplacerToken.

(** The last statement of insertMethodDescriptionTable: the README text
    with every match of the sentinel expression replaced by the template
    [`${startReplacerToken}\n${apiMarkdownTable}\n${endReplacerToken}`]. *)
Definition insertedData (readmeMd apiMarkdownTable : jsstring) : jsstring :=
  replace_global sentinel_regex readmeMd
    (startReplacerToken ++ [NL] ++ apiMarkdownTable ++ [NL]
       ++ endReplacerToken).

(** ** Exceptions

    Reading a property of [undefined] throws a [TypeError]; a call that does
    not fit on the call stack throws a [RangeError]. *)

Inductive exn : Type := TypeError | RangeError.

Inductive result (A : Type) : Type :=
| Ok (a : A)
| Throw (e : exn).
Arguments Ok {A} a.
Arguments Throw {A} e.

Definition bind {A B : Type} (c : result A) (k : A -> result B) : result B :=
  match c with
  | Ok a => k a
  | Throw e => Throw e
  end.

Notation "x <- c ;; k" := (bind c (fun x => k))
  (at level 61, c at next level, right associativity).

(** Reading through a value that may be [undefined]. *)
Definition deref {A : Type} (v : option A) : result A :=
  match v with
  | Some a => Ok a
  | None => Throw TypeError
  end.

(** [array.filter(p)] and [array.map(f)] with callbacks that may throw. *)
Fixpoint filterM {A : Type} (p : A -> result bool) (l : list A)
  : result (list A) :=
  match l with
  | [] => Ok []
  | x :: l' =>
      b <- p x ;;
      rest <- filterM p l' ;;
      Ok (if b then x :: rest else rest)
  end.

Fixpoint mapM {A B : Type} (f : A -> result B) (l : list A)
  : result (list B) :=
  match l with
  | [] => Ok []
  | x :: l' =>
      y <- f x ;;
      rest <- mapM f l' ;;
      Ok (y :: rest)
  end.

(** ** Data model *)

(** What the generator reads of Documentalist's output. *)

Record Flags : Type := {
  isProtected : bool;        (* an absent flag reads as false *)
  isStatic : bool
}.

Record DocumentationContent : Type := {
  tag : option jsstring;
  value : option jsstring
}.

Record Documentation : Type := {
  contents : option (list DocumentationContent);
  contentsRaw : jsstring
}.

Record Signature : Type := {
  sig_type : jsstring;
  sig_documentation : option Documentation
}.

Record Method : Type := {
  method_name : jsstring;
  method_flags : Flags;
  signatures : list Signature
}.

Record Property : Type := {
  property_name : jsstring;
  property_type : jsstring;
  property_flags : Flags;
  property_documentation : option Documentation
}.

Record ModuleData : Type := {
  kind : jsstring;
  fileName : jsstring;
  documentation : option Documentation;
  doc_methods : option (list Method);
  doc_properties : option (list Property)
}.

(** [docData]: an object from module names to their data, in key order. *)
Definition DocData := list (jsstring * ModuleData).

(** The interfaces declared at the top of the source. *)

Record ModuleEvents : Type := {
  event_documentation : option jsstring
}.

Record ModuleMethods : Type := {
  methodSignature : jsstring;
  method_documentation : jsstring
}.

Record ModuleProperties : Type := {
  name : jsstring;
  type : jsstring;
  prop_documentation : jsstring
}.

Record ModuleDocumentation : Type := {
  doc_events : list ModuleEvents
}.

Record ModuleMarkdown : Type := {
  methods : list ModuleMethods;
  events : list ModuleEvents;
  properties : list ModuleProperties;
  moduleName : jsstring;
  readmeDirectoryPath : jsstring
}.

Definition FOUNDATION : jsstring := lit "foundation".
Definition ADAPTER : jsstring := lit "adapter".
Definition README_FILE : jsstring := lit "README.md".

Definition jsstring_eqb (a b : jsstring) : bool :=
  if list_eq_dec N.eq_dec a b then true else false.

(** [obj[key]] on an object used as a map. *)
Fixpoint lookup {V : Type} (obj : list (jsstring * V)) (key : jsstring)
  : option V :=
  match obj with
  | [] => None
  | (k, v) :: obj' => if jsstring_eqb k key then Some v else lookup obj' key
  end.

(** ** The Transformer *)

(** [shouldIgnoreDocumentationItem(item, opts)]: the truth value of
    [!isProtected && !isStatic && opts.hasDocumentation]; an item is kept
    by the callers' [filter] when it is true. *)
Definition shouldIgnoreDocumentationItem (flags : Flags)
    (hasDocumentation : option Documentation) : bool :=
  negb (isProtected flags) && negb (isStatic flags)
  && match hasDocumentation with Some _ => true | None => false end.

(** [method.signatures[0]] followed by a property read. *)
Definition signature0 (method : Method) : result Signature :=
  deref (nth_error (signatures method) 0).

Definition getDocumentationForMethods (docData : option DocData)
    (esmodule : jsstring) : result (list ModuleMethods) :=
  match docData with
  | None => Ok []
  | Some data =>
      m <- deref (lookup data esmodule) ;;
      match doc_methods m with
      | None => Ok []
      | Some ms =>
          kept <- filterM (fun method =>
                    s <- signature0 method ;;
                    Ok (shouldIgnoreDocumentationItem (method_flags method)
                          (sig_documentation s))) ms ;;
          mapM (fun method =>
                  s <- signature0 method ;;
                  d <- deref (sig_documentation s) ;;
                  Ok {| method_documentation := cleanComment (contentsRaw d);
                        methodSignature := method_name method ++ sig_type s |})
               kept
      end
  end.

Definition getDocumentationProperties (docData : option DocData)
    (esmodule : jsstring) : result (list ModuleProperties) :=
  match docData with
  | None => Ok []
  | Some data =>
      m <- deref (lookup data esmodule) ;;
      match doc_properties m with
      | None => Ok []
      | Some ps =>
          mapM (fun property =>
                  d <- deref (property_documentation property) ;;
                  Ok {| prop_documentation := cleanComment (contentsRaw d);
                        name := property_name property;
                        type := property_type property |})
               (filter (fun property =>
                          shouldIgnoreDocumentationItem
                            (property_flags property)
                            (property_documentation property)) ps)
      end
  end.

(** [getDocumentationForEvents(esmodule)]: reads
    [this.docData[esmodule].documentation.contents] without a guard. *)
Definition getDocumentationForEvents (docData : option DocData)
    (esmodule : jsstring) : result (list ModuleEvents) :=
  data <- deref docData ;;
  m <- deref (lookup data esmodule) ;;
  d <- deref (documentation m) ;;
  cs <- deref (contents d) ;;
  Ok (map (fun content => {| event_documentation := value content |})
          (filter (fun content =>
                     match tag content with
                     | Some t => negb (jsstring_eqb t [])
                                 && jsstring_eqb t (lit "events")
                     | None => false
                     end) cs)).

Definition getDocumentationForModule (docData : option DocData)
    (esmodule : jsstring) : result ModuleDocumentation :=
  match docData with
  | None => Ok {| doc_events := [] |}
  | Some data =>
      m <- deref (lookup data esmodule) ;;
      match documentation m with
      | None => Ok {| doc_events := [] |}
      | Some d =>
          match contents d with
          | None => Ok {| doc_events := [] |}
          | Some _ =>
              (* this only returns event data *)
              evs <- getDocumentationForEvents docData esmodule ;;
              Ok {| doc_events := evs |}
          end
      end
  end.

(** ** Directory resolution *)

(** The first three statements of getFilePathName. *)
Definition directoryPath (filePath : jsstring) : jsstring :=
  let startingIndex := (indexOf filePath (lit "/mdc-") + 1)%Z in
  let endIndex := lastIndexOf filePath (lit "/") in
  substring filePath startingIndex endIndex.

Section Generator.

(** [readmeExists dir] is
    [fs.existsSync(path.resolve('packages', dir, README_FILE))]. *)
Variable readmeExists : jsstring -> bool.

(** [getFilePathName(filePath)] on a call stack with room for [stack] more
    frames.  The result comes with what was passed to [console.error].
    The recursive call is inside the [try] block, so a [RangeError] of a
    callee is caught, logged, and the empty string returned. *)
Fixpoint getFilePathName (stack : nat) (filePath : jsstring)
  : result jsstring * list exn :=
  match stack with
  | O => (Throw RangeError, [])
  | S stack' =>
      let dir := directoryPath filePath in
      if readmeExists dir then (Ok dir, [])
      else
        (* look one directory level up *)
        match getFilePathName stack' dir with
        | (Ok found, log) => (Ok found, log)
        | (Throw err, log) => (Ok [], log ++ [err])
        end
  end.

(** The same recursion with no bound on the call stack, as the relation
    between a file path and the value returned for it. *)
Inductive getFilePathName_returns : jsstring -> jsstring -> Prop :=
| returns_here filePath :
    readmeExists (directoryPath filePath) = true ->
    getFilePathName_returns filePath (directoryPath filePath)
| returns_up filePath found :
    readmeExists (directoryPath filePath) = false ->
    getFilePathName_returns (directoryPath filePath) found ->
    getFilePathName_returns filePath found.

(** ** The Aggregator *)

Definition MarkdownBuffer := list (jsstring * list ModuleMarkdown).

(** [addToMarkdownBuffer]: push on the list under the key, or start one
    (a new key comes last in the object's key order).  The buffer is taken
    with its own keys.  Under a name that every object inherits
    ([constructor], [toString], [__proto__], ...) the source's
    [this.markdownBuffer[key]] is the inherited value, which has no [push]:
    such keys are outside this definition, and the properties that depend
    on the difference say so. *)
Fixpoint addToMarkdownBuffer (buffer : MarkdownBuffer)
    (key : jsstring) (moduleMarkdown : ModuleMarkdown) : MarkdownBuffer :=
  match buffer with
  | [] => [(key, [moduleMarkdown])]
  | (k, l) :: buffer' =>
      if jsstring_eqb k key then (k, l ++ [moduleMarkdown]) :: buffer'
      else (k, l) :: addToMarkdownBuffer buffer' key moduleMarkdown
  end.

Definition generateDocsForModule (stack : nat) (docData : option DocData)
    (buffer : MarkdownBuffer) (esmodule : jsstring)
  : result MarkdownBuffer :=
  data <- deref docData ;;
  m <- deref (lookup data esmodule) ;;
  dir <- fst (getFilePathName stack (fileName m)) ;;
  if jsstring_eqb (kind m) (lit "type alias") then
    (* ignore types and interfaces *)
    Ok buffer
  else
    doc <- getDocumentationForModule docData esmodule ;;
    ms <- getDocumentationForMethods docData esmodule ;;
    ps <- getDocumentationProperties docData esmodule ;;
    Ok (addToMarkdownBuffer buffer dir
          {| events := doc_events doc;
             methods := ms;
             moduleName := esmodule;
             properties := ps;
             readmeDirectoryPath := dir |}).

(** The [forEach] of generateDocs over [Object.keys(this.docData)]. *)
Fixpoint generateDocsForModules (stack : nat) (docData : option DocData)
    (buffer : MarkdownBuffer) (modules : list jsstring)
  : result MarkdownBuffer :=
  match modules with
  | [] => Ok buffer
  | esmodule :: modules' =>
      buffer' <- generateDocsForModule stack docData buffer esmodule ;;
      generateDocsForModules stack docData buffer' modules'
  end.

(** ** The Renderer *)

(** [sortByModuleType(a, b)]. *)
Definition sortByModuleType (a b : ModuleMarkdown) : Z :=
  let moduleA := toLowerCase (moduleName a) in
  let moduleB := toLowerCase (moduleName b) in
  if negb (includes moduleA FOUNDATION) && negb (includes moduleA ADAPTER)
  then (-1)%Z
  else if includes moduleA FOUNDATION && negb (includes moduleB FOUNDATION)
  then 1%Z
  else if (includes moduleA FOUNDATION && includes moduleB FOUNDATION)
          || (includes moduleA ADAPTER && includes moduleB ADAPTER)
  then (* alphabetize *)
    (if str_gt moduleA moduleB then 1 else -1)%Z
  else 0%Z.

(** The engine's [Array.prototype.sort] and the compiled Handlebars
    template are not part of the script. *)
Variable array_sort :
  (ModuleMarkdown -> ModuleMarkdown -> Z) ->
  list ModuleMarkdown -> list ModuleMarkdown.
Variable templateFunction : list ModuleMarkdown -> jsstring.

(** The callback of the [filter] in insertMethodDescriptionTable:
    [module.methods.length || module.properties.length
     || module.events.length]. *)
Definition hasMembers (module : ModuleMarkdown) : bool :=
  negb (length (methods module) =? 0)
  || negb (length (properties module) =? 0)
  || negb (length (events module) =? 0).

(** The [modules] handed to the template. *)
Definition modulesForTemplate (group : list ModuleMarkdown)
  : list ModuleMarkdown :=
  array_sort sortByModuleType (filter hasMembers group).

(** ** The Writer *)

(** The files of the run: [readFile path] is the content read, [None]
    when reading fails. *)
Variable readFile : jsstring -> option jsstring.

Inductive fs_event : Type :=
| ReadFile (path : jsstring)
| WriteFile (path content : jsstring).

Definition readmePath (readmeDirectoryPath : jsstring) : jsstring :=
  lit "./packages/" ++ readmeDirectoryPath ++ lit "/" ++ README_FILE.

(** [insertMethodDescriptionTable(readmeDirectoryPath)]: the value the
    promise resolves with; [None] when the executor throws (the README
    cannot be read, or the buffer has no such key) and the promise is
    never resolved. *)
Definition insertMethodDescriptionTable (buffer : MarkdownBuffer)
    (readmeDirectoryPath : jsstring) : option jsstring :=
  match readFile (readmePath readmeDirectoryPath) with
  | None => None
  | Some readmeMd =>
      match lookup buffer readmeDirectoryPath with
      | None => None
      | Some group =>
          let modules := modulesForTemplate group in
          let apiMarkdownTable := templateFunction modules in
          Some (insertedData readmeMd apiMarkdownTable)
      end
  end.

Definition allowList : list jsstring := [lit "mdc-drawer"].

(** generateMarkdownFileFromBuffer, as the file operations it performs
    in order; [keys] are the keys of the [for ... in] loop still to visit.
    When the awaited promise never resolves the loop never resumes. *)
Fixpoint generateMarkdownFileFromBuffer_loop (buffer : MarkdownBuffer)
    (keys : list jsstring) : list fs_event :=
  match keys with
  | [] => []
  | readmeDirectoryPath :: keys' =>
      if existsb (fun allowed => includes readmeDirectoryPath allowed)
                 allowList
      then
        let readmeDestinationPath := readmePath readmeDirectoryPath in
        ReadFile (readmePath readmeDirectoryPath)
        :: match insertMethodDescriptionTable buffer readmeDirectoryPath with
           | Some finalReadmeMarkdown =>
               WriteFile readmeDestinationPath finalReadmeMarkdown
               :: generateMarkdownFileFromBuffer_loop buffer keys'
           | None => []
           end
      else generateMarkdownFileFromBuffer_loop buffer keys'
  end.

Definition generateMarkdownFileFromBuffer (buffer : MarkdownBuffer)
  : list fs_event :=
  generateMarkdownFileFromBuffer_loop buffer (map fst buffer).

(** [generateDocs(docData)] from an empty buffer. *)
Definition generateDocs (stack : nat) (typescript : DocData)
  : result (list fs_event) :=
  buffer <- generateDocsForModules stack (Some typescript) []
              (map fst typescript) ;;
  Ok (generateMarkdownFileFromBuffer buffer).

End Generator.

(** One admissible [Array.prototype.sort]: the insertion sort V8 ran on
    short arrays, which moves an element left past every neighbour the
    comparator puts after it. *)
Fixpoint insertFromRight {A : Type} (comparefn : A -> A -> Z) (element : A)
    (sortedRev : list A) : list A :=
  match sortedRev with
  | [] => [element]
  | tmp :: rest =>
      if (comparefn tmp element >? 0)%Z
      then tmp :: insertFromRight comparefn element rest
      else element :: sortedRev
  end.

Definition insertionSort {A : Type} (comparefn : A -> A -> Z) (a : list A)
  : list A :=
  rev (fold_left (fun sortedRev element =>
                    insertFromRight comparefn element sortedRev) a []).

(** * Vocabulary of the properties *)

Definition newlineToSpace (c : N) : N := if (c =? NL)%N then SPACE else c.

(** The methods and properties extracted for a module. *)
Definition methodsOf (m : ModuleData) : list Method :=
  match doc_methods m with Some ms => ms | None => [] end.


(** A method is documented when its first signature carries documentation. *)
Definition methodDocumentation (method : Method) : option Documentation :=
  match signatures method with
  | s :: _ => sig_documentation s
  | [] => None
  end.

Definition isDocumented (d : option Documentation) : bool :=
  match d with Some _ => true | None => false end.

Definition documentedPublicMethod (method : Method) : bool :=
  isDocumented (methodDocumentation method)
  && negb (isProtected (method_flags method))
  && negb (isStatic (method_flags method)).




Definition undocumentedModule : ModuleData :=
  {| kind := lit "class";
     fileName := lit "packages/mdc-drawer/foundation.ts";
     documentation := None;
     doc_methods := None;
     doc_properties := None |}.

Definition noMembers (module : ModuleMarkdown) : Prop :=
  methods module = [] /\ properties module = [] /\ events module = [].

Definition emptyModule (moduleName_ : jsstring) : ModuleMarkdown :=
  {| methods := []; events := []; properties := [];
     moduleName := moduleName_; readmeDirectoryPath := lit "mdc-drawer" |}.

(** A module with one documented method. *)
Definition moduleNamed (moduleName_ : jsstring) : ModuleMarkdown :=
  {| methods := [{| methodSignature := lit "open() => void";
                    method_documentation := lit "Opens the drawer." |}];
     events := []; properties := [];
     moduleName := moduleName_; readmeDirectoryPath := lit "mdc-drawer" |}.

Definition event_path (ev : fs_event) : jsstring :=
  match ev with
  | ReadFile path => path
  | WriteFile path _ => path
  end.

Definition allowed (readmeDirectoryPath : jsstring) : bool :=
  includes readmeDirectoryPath (lit "mdc-drawer").

Definition Foo : ModuleMarkdown := moduleNamed (lit "Foo").
Definition Bar : ModuleMarkdown := moduleNamed (lit "Bar").
Definition FooAdapter : ModuleMarkdown := moduleNamed (lit "FooAdapter").
Definition BarAdapter : ModuleMarkdown := moduleNamed (lit "BarAdapter").
Definition FooFoundation : ModuleMarkdown := moduleNamed (lit "FooFoundation").

(** A comparator orders its arguments consistently when swapping them
    flips the sign of its result. *)
Definition antisymmetric_comparator {A : Type} (comparefn : A -> A -> Z)
  : Prop :=
  forall a b, Z.sgn (comparefn a b) = (- Z.sgn (comparefn b a))%Z.

(** The argument of the recursive call at depth [n]. *)
Definition ancestor (n : nat) (filePath : jsstring) : jsstring :=
  Nat.iter n directoryPath filePath.

(** The positions at which a literal occurs in a text. *)
Fixpoint indices_from (tok s : jsstring) (i : nat) : list nat :=
  (if startsWith tok s then [i] else [])
  ++ match s with
     | [] => []
     | _ :: s' => indices_from tok s' (S i)
     end.

Definition indices (tok s : jsstring) : list nat := indices_from tok s 0.

(** A fragment in which no code unit starts a replacement pattern. *)
Definition noPatterns (fragment : jsstring) : bool :=
  forallb (fun c => negb (c =? DOLLAR)%N) fragment.

(** A text whose only line terminators are line feeds. *)
Definition onlyLineFeeds (text : jsstring) : bool := forallb dot_or_nl text.

(** A region of the README that the sentinel expression matches. *)
Definition sentinel_region (readmeMd before body after : jsstring) : Prop :=
  readmeMd = before ++ startReplacerToken ++ [NL] ++ body
             ++ endReplacerToken ++ after
  /\ assert_line_start before = true
  /\ assert_line_end after = true
  /\ Forall (fun c => dot_or_nl c = true) body.

Definition replacement (apiMarkdownTable : jsstring) : jsstring :=
  startReplacerToken ++ [NL] ++ apiMarkdownTable ++ [NL] ++ endReplacerToken.

Definition placeholderReadme : jsstring :=
  startReplacerToken ++ [NL] ++ lit "old" ++ [NL] ++ endReplacerToken.

Definition crlfReadme : jsstring :=
  startReplacerToken ++ [NL] ++ lit "old" ++ [CR; NL] ++ endReplacerToken.

(** A module with a documented public method, a documented static one and
    an undocumented one, and with a documented protected property. *)
Definition documented (raw : jsstring) : option Documentation :=
  Some {| contents := None; contentsRaw := raw |}.

Definition drawerFoundation : ModuleData :=
  {| kind := lit "class";
     fileName := lit "packages/mdc-drawer/dismissible/foundation.ts";
     documentation := None;
     doc_methods :=
       Some [ {| method_name := lit "open";
                 method_flags := {| isProtected := false; isStatic := false |};
                 signatures :=
                   [ {| sig_type := lit "() => void";
                        sig_documentation :=
                          documented (lit "Opens the drawer") |} ] |};
              {| method_name := lit "defaultAdapter";
                 method_flags := {| isProtected := false; isStatic := true |};
                 signatures :=
                   [ {| sig_type := lit "() => MDCDrawerAdapter";
                        sig_documentation :=
                          documented (lit "Default adapter") |} ] |};
              {| method_name := lit "handleKeydown";
                 method_flags := {| isProtected := false; isStatic := false |};
                 signatures :=
                   [ {| sig_type := lit "(evt: KeyboardEvent) => void";
                        sig_documentation := None |} ] |} ];
     doc_properties :=
       Some [ {| property_name := lit "animationFrame_";
                 property_type := lit "number";
                 property_flags :=
                   {| isProtected := true; isStatic := false |};
                 property_documentation :=
                   documented (lit "Pending frame") |} ] |}.



(** A source file below two nested [mdc-] directories. *)
Definition nestedPackageFile : jsstring := lit "packages/mdc-a/mdc-b/x.ts".

(** README.md exists in [packages/mdc-a] only. *)
Definition readmeInMdcA (dir : jsstring) : bool :=
  jsstring_eqb dir (lit "mdc-a").

(** The parent directory of a relative path, in the specification's sense:
    the path without its last segment. *)
Definition parentDirectory (directory : jsstring) : jsstring :=
  substring directory 0 (lastIndexOf directory (lit "/")).

(** ** Vocabulary of the further properties *)

(** The list under a key of the buffer, empty when the key is absent. *)
Definition groupOf (buffer : MarkdownBuffer) (key : jsstring)
  : list ModuleMarkdown :=
  match lookup buffer key with
  | Some group => group
  | None => []
  end.

(** A method whose [signatures] array is empty. *)
Definition noSignature (method : Method) : bool :=
  match signatures method with
  | [] => true
  | _ :: _ => false
  end.

Definition isTypeAlias (m : ModuleData) : bool :=
  jsstring_eqb (kind m) (lit "type alias").

(** A module name on which generateDocsForModule throws. *)
Definition failingModule (data : DocData) (esmodule : jsstring) : bool :=
  match lookup data esmodule with
  | Some m => negb (isTypeAlias m) && existsb noSignature (methodsOf m)
  | None => true
  end.

(** The module [esmodule] gets a record under [key]. *)
Definition resolvesTo (readmeExists : jsstring -> bool) (stack : nat)
    (data : DocData) (key esmodule : jsstring) : bool :=
  match lookup data esmodule with
  | Some m =>
      negb (isTypeAlias m)
      && match fst (getFilePathName readmeExists stack (fileName m)) with
         | Ok dir => jsstring_eqb dir key
         | Throw _ => false
         end
  | None => false
  end.

(** The record that generateDocsForModule builds for a module. *)
Definition recordOf (docData : option DocData) (key esmodule : jsstring)
    (record : ModuleMarkdown) : Prop :=
  moduleName record = esmodule
  /\ readmeDirectoryPath record = key
  /\ getDocumentationForMethods docData esmodule = Ok (methods record)
  /\ getDocumentationProperties docData esmodule = Ok (properties record)
  /\ exists doc,
       getDocumentationForModule docData esmodule = Ok doc
       /\ events record = doc_events doc.

Definition isEventsTag (content : DocumentationContent) : bool :=
  match tag content with
  | Some t => jsstring_eqb t (lit "events")
  | None => false
  end.

Definition lowerName (module : ModuleMarkdown) : jsstring :=
  toLowerCase (moduleName module).

(** Both modules are foundations, or both are adapters and neither is a
    foundation. *)
Definition sameTier (a b : ModuleMarkdown) : bool :=
  (includes (lowerName a) FOUNDATION && includes (lowerName b) FOUNDATION)
  || (negb (includes (lowerName a) FOUNDATION)
      && negb (includes (lowerName b) FOUNDATION)
      && includes (lowerName a) ADAPTER
      && includes (lowerName b) ADAPTER).

(** The README read for a key, empty when reading fails. *)
Definition readmeOf (readFile : jsstring -> option jsstring)
    (key : jsstring) : jsstring :=
  match readFile (readmePath key) with
  | Some readmeMd => readmeMd
  | None => []
  end.

(** The two file operations of a key whose README is rewritten. *)
Definition rewriteOf
    (array_sort : (ModuleMarkdown -> ModuleMarkdown -> Z) ->
                  list ModuleMarkdown -> list ModuleMarkdown)
    (templateFunction : list ModuleMarkdown -> jsstring)
    (readFile : jsstring -> option jsstring)
    (buffer : MarkdownBuffer) (key : jsstring) : list (fs_event) :=
  [ReadFile (readmePath key);
   WriteFile (readmePath key)
     (insertedData (readmeOf readFile key)
        (templateFunction (modulesForTemplate array_sort
                             (groupOf buffer key))))].

(** No start sentinel begins in the first [n] code units of the text. *)
Definition noStartWithin (n : nat) (text : jsstring) : Prop :=
  forall k, k < n -> startsWith startReplacerToken (skipn k text) = false.

(** A protected method that Documentalist gave no signature. *)
Definition unsignedMethod : Method :=
  {| method_name := lit "layout";
     method_flags := {| isProtected := true; isStatic := false |};
     signatures := [] |}.

Definition classWithUnsignedMethod : ModuleData :=
  {| kind := lit "class";
     fileName := lit "packages/mdc-drawer/component.ts";
     documentation := None;
     doc_methods := Some [unsignedMethod];
     doc_properties := None |}.

Definition aliasWithUnsignedMethod : ModuleData :=
  {| kind := lit "type alias";
     fileName := lit "packages/mdc-drawer/types.ts";
     documentation := None;
     doc_methods := Some [unsignedMethod];
     doc_properties := None |}.

Definition classWithEvents : ModuleData :=
  {| kind := lit "class";
     fileName := lit "packages/mdc-drawer/component.ts";
     documentation :=
       Some {| contents :=
                 Some [ {| tag := None; value := Some (lit "A drawer.") |};
                        {| tag := Some (lit "events");
                           value := Some (lit "MDCDrawer:opened") |};
                        {| tag := Some (lit "deprecated"); value := None |} ];
               contentsRaw := lit "A drawer." |};
     doc_methods := None;
     doc_properties := None |}.

(** README.md exists in [packages/mdc-drawer] only. *)
Definition drawerReadmeOnly (dir : jsstring) : bool :=
  jsstring_eqb dir (lit "mdc-drawer").

(** The names of the properties of [Object.prototype], which a plain
    object such as [this.markdownBuffer] inherits. *)
Definition objectPrototypeNames : list jsstring :=
  [ lit "constructor"; lit "hasOwnProperty"; lit "isPrototypeOf";
    lit "propertyIsEnumerable"; lit "toLocaleString"; lit "toString";
    lit "valueOf"; lit "__proto__"; lit "__defineGetter__";
    lit "__defineSetter__"; lit "__lookupGetter__"; lit "__lookupSetter__" ].

Definition inheritedName (key : jsstring) : bool :=
  existsb (jsstring_eqb key) objectPrototypeNames.

(** * Properties *)

(** ** cleanComment *)

Lemma replace_newlines_map (before s : jsstring) :
  replace_loop newline_regex (lit " ") 0 before s = map newlineToSpace s.
Proof.
  revert before.
  induction s as [|c s IH]; intros before; [reflexivity|].
  cbn [replace_loop newline_regex map]. unfold newlineToSpace at 1.
  destruct (c =? NL)%N; cbn; now rewrite IH.
Qed.

Lemma newlineToSpace_not_NL (c : N) : newlineToSpace c <> NL.
Proof.
  unfold newlineToSpace.
  destruct (c =? NL)%N eqn:E; [discriminate|].
  now apply N.eqb_neq.
Qed.

(** C7.  cleanComment replaces every line feed of the documentation string
    by one space and changes nothing else: the result has the length of the
    input, holds no line feed, and at every index holds a space where the
    input holds a line feed and the input's code unit otherwise. *)
Theorem cleanComment_replaces_every_newline (comment : jsstring) :
  cleanComment comment = map newlineToSpace comment
  /\ length (cleanComment comment) = length comment
  /\ ~ In NL (cleanComment comment)
  /\ forall i c, nth_error comment i = Some c ->
       nth_error (cleanComment comment) i
       = Some (if (c =? NL)%N then SPACE else c).
Proof.
  assert (E : cleanComment comment = map newlineToSpace comment)
    by apply replace_newlines_map.
  rewrite E. repeat split.
  - apply length_map.
  - intros H. apply in_map_iff in H. destruct H as [c [H _]].
    now apply newlineToSpace_not_NL in H.
  - intros i c H. rewrite nth_error_map, H. reflexivity.
Qed.

(** ** Member filtering *)

Lemma filterM_total {A : Type} (p : A -> result bool) (q : A -> bool)
    (l : list A) :
  (forall x, In x l -> p x = Ok (q x)) -> filterM p l = Ok (filter q l).
Proof.
  induction l as [|x l IH]; intros H; [reflexivity|].
  cbn [filterM filter]. rewrite (H x (or_introl eq_refl)). cbn [bind].
  rewrite IH by (intros y Hy; apply H; now right). reflexivity.
Qed.

Lemma mapM_total {A B : Type} (f : A -> result B) (R : A -> B -> Prop)
    (l : list A) :
  (forall x, In x l -> exists y, f x = Ok y /\ R x y) ->
  exists out, mapM f l = Ok out /\ Forall2 R l out.
Proof.
  induction l as [|x l IH]; intros H.
  - exists []. split; [reflexivity | constructor].
  - destruct (H x (or_introl eq_refl)) as [y [Hy HR]].
    destruct IH as [out [Hout HF]]; [intros z Hz; apply H; now right|].
    exists (y :: out). cbn [mapM]. rewrite Hy, Hout. cbn [bind].
    split; [reflexivity | now constructor].
Qed.

Lemma Forall2_In_r {A B : Type} (R : A -> B -> Prop) l out y :
  Forall2 R l out -> In y out -> exists x, In x l /\ R x y.
Proof.
  induction 1 as [|a b l out HR _ IH]; intros Hy; [contradiction|].
  destruct Hy as [<-|Hy].
  - exists a. split; [now left | assumption].
  - destruct (IH Hy) as [x [Hx Hxy]]. exists x. split; [now right | assumption].
Qed.





(** ** Module-level documentation *)

(** C10.  For a module whose data has no [documentation], or whose
    documentation has no [contents], getDocumentationForModule returns the
    record with an empty events list.  getDocumentationForEvents, which
    reads [documentation.contents] unguarded, throws on the same module: the
    guard keeps it from being called. *)
Theorem getDocumentationForModule_guards_missing_contents
    (data : DocData) (esmodule : jsstring) (m : ModuleData) :
  lookup data esmodule = Some m ->
  (documentation m = None
   \/ exists d, documentation m = Some d /\ contents d = None) ->
  getDocumentationForModule (Some data) esmodule = Ok {| doc_events := [] |}
  /\ getDocumentationForEvents (Some data) esmodule = Throw TypeError.
Proof.
  intros Hm H.
  unfold getDocumentationForModule, getDocumentationForEvents.
  cbn [deref bind]. rewrite Hm. cbn [deref bind].
  destruct H as [H | [d [H Hc]]]; rewrite H; cbn [deref bind];
    [|rewrite Hc]; split; reflexivity.
Qed.

Lemma getDocumentationForModule_guards_missing_contents_witness :
  getDocumentationForModule
    (Some [(lit "MDCDrawerFoundation", undocumentedModule)])
    (lit "MDCDrawerFoundation") = Ok {| doc_events := [] |}
  /\ getDocumentationForEvents
       (Some [(lit "MDCDrawerFoundation", undocumentedModule)])
       (lit "MDCDrawerFoundation") = Throw TypeError.
Proof.
  apply (@getDocumentationForModule_guards_missing_contents
           [(lit "MDCDrawerFoundation", undocumentedModule)]
           (lit "MDCDrawerFoundation") undocumentedModule).
  - reflexivity.
  - left. reflexivity.
Defined.

(** ** Modules handed to the template *)

Lemma hasMembers_false_iff (module : ModuleMarkdown) :
  hasMembers module = false <-> noMembers module.
Proof.
  unfold hasMembers, noMembers.
  destruct (methods module), (properties module), (events module); cbn;
    intuition discriminate.
Qed.

(** C6.  Whatever the engine's sort does with its input short of inventing
    elements, no module of a directory group whose methods, properties and
    events are all empty is in the list handed to the template. *)
Theorem empty_modules_never_rendered
    (array_sort : (ModuleMarkdown -> ModuleMarkdown -> Z) ->
                  list ModuleMarkdown -> list ModuleMarkdown)
    (group : list ModuleMarkdown) (module : ModuleMarkdown) :
  (forall l x, In x (array_sort sortByModuleType l) -> In x l) ->
  noMembers module ->
  ~ In module (modulesForTemplate array_sort group).
Proof.
  intros Hsort Hempty Hin. unfold modulesForTemplate in Hin.
  apply Hsort, filter_In in Hin. destruct Hin as [_ Hin].
  apply hasMembers_false_iff in Hempty. congruence.
Qed.

Lemma insertFromRight_In {A : Type} (comparefn : A -> A -> Z) element l x :
  In x (insertFromRight comparefn element l) -> x = element \/ In x l.
Proof.
  induction l as [|tmp l IH]; cbn [insertFromRight].
  - intros [<-|[]]. now left.
  - destruct (comparefn tmp element >? 0)%Z.
    + intros [<-|H]; [right; now left|].
      destruct (IH H) as [->|H']; [now left | right; now right].
    + intros [<-|H]; [now left | now right].
Qed.

Lemma insertionSort_In {A : Type} (comparefn : A -> A -> Z) (a : list A) x :
  In x (insertionSort comparefn a) -> In x a.
Proof.
  unfold insertionSort. intros H. apply in_rev in H.
  assert (G : forall acc,
             In x (fold_left (fun sortedRev element =>
                      insertFromRight comparefn element sortedRev) a acc) ->
             In x acc \/ In x a).
  { clear H. induction a as [|e a IH]; intros acc H; [now left|].
    cbn [fold_left] in H. destruct (IH _ H) as [H'|H'].
    - apply insertFromRight_In in H'. destruct H' as [->|H'].
      + right. now left.
      + now left.
    - right. now right. }
  destruct (G [] H) as [[]|G']. exact G'.
Qed.

Lemma empty_modules_never_rendered_witness :
  ~ In (emptyModule (lit "MDCDrawerAdapter"))
       (modulesForTemplate (@insertionSort ModuleMarkdown)
          [moduleNamed (lit "MDCDrawer");
           emptyModule (lit "MDCDrawerAdapter")]).
Proof.
  apply empty_modules_never_rendered.
  - intros l x. apply insertionSort_In.
  - repeat split.
Defined.

(** ** The allow-list *)

Lemma readmePath_inj (a b : jsstring) : readmePath a = readmePath b -> a = b.
Proof.
  unfold readmePath. intros H.
  apply app_inv_head in H. now apply app_inv_tail in H.
Qed.

Section AllowList.

Variable array_sort :
  (ModuleMarkdown -> ModuleMarkdown -> Z) ->
  list ModuleMarkdown -> list ModuleMarkdown.
Variable templateFunction : list ModuleMarkdown -> jsstring.
Variable readFile : jsstring -> option jsstring.

(** Every file operation of the loop is on the README of a visited key
    that the allow-list matches, and what is written there is made from
    that key's group alone. *)
Lemma loop_events_allowed (buffer : MarkdownBuffer) (keys : list jsstring)
    (ev : fs_event) :
  In ev (generateMarkdownFileFromBuffer_loop array_sort templateFunction
           readFile buffer keys) ->
  exists key,
    In key keys /\ allowed key = true /\ event_path ev = readmePath key
    /\ forall content, ev = WriteFile (readmePath key) content ->
         exists readmeMd group,
           readFile (readmePath key) = Some readmeMd
           /\ lookup buffer key = Some group
           /\ content = insertedData readmeMd
                (templateFunction (modulesForTemplate array_sort group)).
Proof.
  induction keys as [|key keys IH]; cbn [generateMarkdownFileFromBuffer_loop];
    [contradiction|].
  cbn [allowList existsb]. rewrite orb_false_r. fold (allowed key).
  destruct (allowed key) eqn:Hkey.
  - intros [<-|H].
    + exists key. repeat split; [now left | assumption |].
      intros content Hc. discriminate Hc.
    + unfold insertMethodDescriptionTable in H.
      destruct (readFile (readmePath key)) as [readmeMd|] eqn:Hread;
        [|contradiction].
      destruct (lookup buffer key) as [group|] eqn:Hgroup; [|contradiction].
      destruct H as [<-|H].
      * exists key. repeat split; [now left | assumption |].
        intros content Hc. injection Hc as <-.
        exists readmeMd, group. auto.
      * destruct (IH H) as [k [Hk1 Hk2]]. exists k. split; [now right|].
        exact Hk2.
  - intros H. destruct (IH H) as [k [Hk1 Hk2]]. exists k.
    split; [now right | exact Hk2].
Qed.

End AllowList.

(** C8.  generateMarkdownFileFromBuffer neither reads nor writes the README
    of a directory group whose key the allow-list does not match (the key
    does not contain "mdc-drawer"), and whatever it writes is made from the
    group of a key that the allow-list matches. *)
Theorem skipped_groups_untouched
    (array_sort : (ModuleMarkdown -> ModuleMarkdown -> Z) ->
                  list ModuleMarkdown -> list ModuleMarkdown)
    (templateFunction : list ModuleMarkdown -> jsstring)
    (readFile : jsstring -> option jsstring)
    (buffer : MarkdownBuffer) (key : jsstring) :
  includes key (lit "mdc-drawer") = false ->
  (forall ev,
     In ev (generateMarkdownFileFromBuffer array_sort templateFunction
              readFile buffer) ->
     event_path ev <> readmePath key)
  /\ (forall path content,
        In (WriteFile path content)
           (generateMarkdownFileFromBuffer array_sort templateFunction
              readFile buffer) ->
        exists key' readmeMd group,
          includes key' (lit "mdc-drawer") = true
          /\ path = readmePath key'
          /\ readFile path = Some readmeMd
          /\ lookup buffer key' = Some group
          /\ content = insertedData readmeMd
               (templateFunction (modulesForTemplate array_sort group))).
Proof.
  intros Hkey. unfold generateMarkdownFileFromBuffer. split.
  - intros ev Hin Hpath.
    apply loop_events_allowed in Hin.
    destruct Hin as [k [_ [Hk [Hp _]]]].
    rewrite Hp in Hpath. apply readmePath_inj in Hpath. subst k.
    unfold allowed in Hk. congruence.
  - intros path content Hin.
    apply loop_events_allowed in Hin.
    destruct Hin as [k [_ [Hk [Hp Hw]]]]. cbn [event_path] in Hp. subst path.
    destruct (Hw content eq_refl) as [readmeMd [group [H1 [H2 H3]]]].
    exists k, readmeMd, group. auto.
Qed.

(** The group under the empty key, where modules without a README up their
    directory chain end up, is among the skipped ones. *)
Lemma skipped_groups_untouched_witness :
  includes [] (lit "mdc-drawer") = false
  /\ ~ (exists ev,
          In ev (generateMarkdownFileFromBuffer (@insertionSort ModuleMarkdown)
                   (fun _ => lit "| table |")
                   (fun _ => Some (lit "# README"))
                   [([], [moduleNamed (lit "Orphan")]);
                    (lit "mdc-drawer", [moduleNamed (lit "MDCDrawer")])])
          /\ event_path ev = readmePath []).
Proof.
  split; [reflexivity|].
  intros [ev [Hin Hpath]]. revert Hpath.
  apply (@skipped_groups_untouched (@insertionSort ModuleMarkdown)
           (fun _ => lit "| table |") (fun _ => Some (lit "# README"))
           [([], [moduleNamed (lit "Orphan")]);
            (lit "mdc-drawer", [moduleNamed (lit "MDCDrawer")])] []);
    [reflexivity | exact Hin].
Defined.

(** ** The comparator *)

(** A component as first argument is put first whatever the second
    argument is, another component included. *)
Lemma sortByModuleType_component_first (a b : ModuleMarkdown) :
  includes (toLowerCase (moduleName a)) FOUNDATION = false ->
  includes (toLowerCase (moduleName a)) ADAPTER = false ->
  sortByModuleType a b = (-1)%Z.
Proof. unfold sortByModuleType. now intros -> ->. Qed.

(** An adapter as first argument gets no preference against anything that
    is not an adapter: no branch of the comparator covers the case. *)
Lemma sortByModuleType_adapter_first (a b : ModuleMarkdown) :
  includes (toLowerCase (moduleName a)) FOUNDATION = false ->
  includes (toLowerCase (moduleName a)) ADAPTER = true ->
  includes (toLowerCase (moduleName b)) ADAPTER = false ->
  sortByModuleType a b = 0%Z.
Proof. unfold sortByModuleType. now intros -> -> ->. Qed.

(** C2, at the inputs where the comparator departs from the order its
    comment describes.  Asked about an adapter and a component, or an
    adapter and a foundation, in that order, it answers 0 (no preference)
    although it answers -1 and 1 when asked in the other order; two
    components are each put before the other, and an adapter before itself.
    So it is not a consistent comparator, and a sort that relies on the
    answers it gets can leave a component after an adapter, as insertion
    sort does on FooAdapter, Foo; on the four modules of the example, in the
    order given, insertion sort does produce Foo, BarAdapter, FooAdapter,
    FooFoundation. *)
Theorem sortByModuleType_inconsistent :
  sortByModuleType FooAdapter Foo = 0%Z
  /\ sortByModuleType Foo FooAdapter = (-1)%Z
  /\ sortByModuleType FooAdapter FooFoundation = 0%Z
  /\ sortByModuleType FooFoundation FooAdapter = 1%Z
  /\ sortByModuleType Foo Bar = (-1)%Z
  /\ sortByModuleType Bar Foo = (-1)%Z
  /\ sortByModuleType FooAdapter FooAdapter = (-1)%Z
  /\ ~ antisymmetric_comparator sortByModuleType
  /\ insertionSort sortByModuleType [FooAdapter; Foo] = [FooAdapter; Foo]
  /\ insertionSort sortByModuleType
       [FooFoundation; FooAdapter; Foo] = [FooAdapter; Foo; FooFoundation]
  /\ insertionSort sortByModuleType
       [Foo; FooAdapter; FooFoundation; BarAdapter]
     = [Foo; BarAdapter; FooAdapter; FooFoundation].
Proof.
  repeat split; try reflexivity.
  intros H. specialize (H FooAdapter Foo). vm_compute in H. discriminate H.
Qed.

(** ** Directory resolution *)

Lemma startsWith_length (pat s : jsstring) :
  startsWith pat s = true -> length pat <= length s.
Proof.
  revert s. induction pat as [|p pat IH]; intros [|c s] H; cbn in *;
    try lia; try discriminate.
  apply andb_prop in H. destruct H as [_ H]. apply IH in H. lia.
Qed.

Lemma indexOf_from_range (pat s : jsstring) (i : Z) :
  indexOf_from pat s i = (-1)%Z
  \/ (i <= indexOf_from pat s i
      /\ indexOf_from pat s i + Z.of_nat (length pat)
         <= i + Z.of_nat (length s))%Z.
Proof.
  revert i. induction s as [|c s IH]; intros i; cbn [indexOf_from].
  - destruct (startsWith pat []) eqn:E; [|now left].
    apply startsWith_length in E. right. lia.
  - destruct (startsWith pat (c :: s)) eqn:E.
    + apply startsWith_length in E. right. lia.
    + destruct (IH (i + 1)%Z) as [H|H]; [now left|].
      right. cbn [length]. lia.
Qed.

Lemma lastIndexOf_from_range (pat s : jsstring) (i : Z) :
  lastIndexOf_from pat s i = (-1)%Z
  \/ (i <= lastIndexOf_from pat s i
      /\ lastIndexOf_from pat s i + Z.of_nat (length pat)
         <= i + Z.of_nat (length s))%Z.
Proof.
  revert i. induction s as [|c s IH]; intros i; cbn [lastIndexOf_from].
  - destruct (startsWith pat []) eqn:E; [|now left].
    apply startsWith_length in E. right. lia.
  - destruct (lastIndexOf_from pat s (i + 1) <? 0)%Z eqn:L.
    + destruct (startsWith pat (c :: s)) eqn:E; [|now left].
      apply startsWith_length in E. right. lia.
    + destruct (IH (i + 1)%Z) as [H|H].
      * rewrite H in L. discriminate L.
      * right. cbn [length]. lia.
Qed.

Lemma substring_length_le (s : jsstring) (start end_ : Z) :
  (Z.of_nat (length (substring s start end_))
   <= Z.max (Z.min (Z.max start 0) (Z.of_nat (length s)))
            (Z.min (Z.max end_ 0) (Z.of_nat (length s))))%Z.
Proof.
  unfold substring. rewrite length_firstn. lia.
Qed.

(** Each step up is strictly shorter, until the path is exhausted. *)
Lemma directoryPath_shorter (filePath : jsstring) :
  filePath <> [] -> length (directoryPath filePath) < length filePath.
Proof.
  intros Hne. unfold directoryPath.
  pose proof (substring_length_le filePath
                (indexOf filePath (lit "/mdc-") + 1)
                (lastIndexOf filePath (lit "/"))) as H.
  pose proof (indexOf_from_range (lit "/mdc-") filePath 0) as Hi.
  pose proof (lastIndexOf_from_range (lit "/") filePath 0) as Hl.
  fold (indexOf filePath (lit "/mdc-")) in Hi.
  fold (lastIndexOf filePath (lit "/")) in Hl.
  change (Z.of_nat (length (lit "/mdc-"))) with 5%Z in Hi.
  change (Z.of_nat (length (lit "/"))) with 1%Z in Hl.
  destruct filePath as [|c s]; [contradiction|]. cbn [length] in *.
  lia.
Qed.

Lemma directoryPath_exhausted : directoryPath [] = [].
Proof. reflexivity. Qed.

Lemma ancestor_S (n : nat) (filePath : jsstring) :
  ancestor (S n) filePath = ancestor n (directoryPath filePath).
Proof.
  unfold ancestor. apply Nat.iter_succ_r.
Qed.

Lemma ancestor_length (n : nat) (filePath : jsstring) :
  length (ancestor n filePath) <= length filePath - n.
Proof.
  revert filePath. induction n as [|n IH]; intros filePath.
  - cbn. lia.
  - rewrite ancestor_S. specialize (IH (directoryPath filePath)).
    destruct filePath as [|c s].
    + rewrite directoryPath_exhausted in *. cbn in *. lia.
    + pose proof (@directoryPath_shorter (c :: s)) as H.
      assert (c :: s <> []) as Hne by discriminate. specialize (H Hne). lia.
Qed.

(** After as many steps as the path has code units, the path is
    exhausted. *)
Lemma ancestor_exhausted (n : nat) (filePath : jsstring) :
  length filePath <= n -> ancestor n filePath = [].
Proof.
  intros H. pose proof (ancestor_length n filePath) as L.
  destruct (ancestor n filePath); [reflexivity | cbn in L; lia].
Qed.

Section Resolution.

Variable readmeExists : jsstring -> bool.

(** With a README first found [k] levels up and a stack with room for
    more than [k] frames, that directory is returned and nothing logged. *)
Lemma getFilePathName_found (k : nat) :
  forall (filePath : jsstring) (stack : nat),
    (forall j, j < k -> readmeExists (ancestor (S j) filePath) = false) ->
    readmeExists (ancestor (S k) filePath) = true ->
    k < stack ->
    getFilePathName readmeExists stack filePath
    = (Ok (ancestor (S k) filePath), [])
    /\ getFilePathName_returns readmeExists filePath
         (ancestor (S k) filePath).
Proof.
  induction k as [|k IH]; intros filePath stack Hno Hyes Hstack;
    (destruct stack as [|stack]; [lia|]); cbn [getFilePathName].
  - cbn in Hyes. rewrite Hyes. split; [reflexivity|].
    now apply returns_here.
  - assert (H0 : readmeExists (directoryPath filePath) = false)
      by (apply (Hno 0); lia).
    rewrite H0.
    destruct (IH (directoryPath filePath) stack) as [E R].
    + intros j Hj. rewrite <- ancestor_S. apply Hno. lia.
    + now rewrite <- ancestor_S.
    + lia.
    + rewrite <- ancestor_S in E, R. rewrite E. split; [reflexivity|].
      now apply returns_up.
Qed.

(** With no README anywhere up the chain, the recursion has no end of its
    own: no value is returned on an unbounded stack, and on a bounded one
    the stack is used up, the [RangeError] logged and [''] returned. *)
Lemma getFilePathName_runaway :
  forall (filePath : jsstring),
    (forall j, readmeExists (ancestor (S j) filePath) = false) ->
    (forall found, ~ getFilePathName_returns readmeExists filePath found)
    /\ (forall stack,
          getFilePathName readmeExists (S stack) filePath
          = (Ok [], [RangeError])).
Proof.
  intros filePath Hno. split.
  - intros found R. induction R as [p Hp | p found Hp R IH].
    + specialize (Hno 0). cbn in Hno. congruence.
    + apply IH. intros j. rewrite <- ancestor_S. apply Hno.
  - intros stack. revert filePath Hno.
    induction stack as [|stack IH]; intros filePath Hno;
      cbn [getFilePathName];
      pose proof (Hno 0) as H0; cbn in H0; rewrite H0.
    + reflexivity.
    + assert (E : getFilePathName readmeExists (S stack)
                    (directoryPath filePath) = (Ok [], [RangeError])).
      { apply IH. intros j. rewrite <- ancestor_S. apply Hno. }
      cbn [getFilePathName] in E. rewrite E.
      reflexivity.
Qed.

End Resolution.

(** C1, at a source file below two nested [mdc-] directories,
    [packages/mdc-a/mdc-b/x.ts], with a README in [packages/mdc-a] only.
    The first call computes [mdc-a/mdc-b], whose parent directory [mdc-a]
    has the README.  The call made to look one directory level up computes
    ['/'] instead: ['/mdc-'] is found again, at index 5, so [startingIndex]
    is 6, past [endIndex] 5, and [substring] swaps the two.  The next
    directory is [''], and every later one.  [mdc-a] is never looked at, and
    on a stack of any size the call ends by the caught [RangeError], with
    [''] returned. *)
Theorem getFilePathName_skips_parent_with_readme :
  directoryPath nestedPackageFile = lit "mdc-a/mdc-b"
  /\ parentDirectory (lit "mdc-a/mdc-b") = lit "mdc-a"
  /\ readmeInMdcA (lit "mdc-a") = true
  /\ directoryPath (lit "mdc-a/mdc-b") = lit "/"
  /\ directoryPath (lit "/") = []
  /\ (forall n, ancestor (S n) nestedPackageFile <> lit "mdc-a")
  /\ (forall stack,
        getFilePathName readmeInMdcA (S stack) nestedPackageFile
        = (Ok [], [RangeError])).
Proof.
  assert (Hno : forall n,
             readmeInMdcA (ancestor (S n) nestedPackageFile) = false).
  { intros [|[|n]]; [vm_compute; reflexivity | vm_compute; reflexivity |].
    rewrite !ancestor_S.
    replace (directoryPath (directoryPath (directoryPath nestedPackageFile)))
      with (@nil N) by (vm_compute; reflexivity).
    rewrite ancestor_exhausted by (cbn; lia). reflexivity. }
  split; [vm_compute; reflexivity|]. split; [vm_compute; reflexivity|].
  split; [vm_compute; reflexivity|]. split; [vm_compute; reflexivity|].
  split; [vm_compute; reflexivity|]. split.
  - intros n E. specialize (Hno n). rewrite E in Hno.
    vm_compute in Hno. discriminate.
  - apply getFilePathName_runaway. exact Hno.
Qed.


(** ** Replacement templates without patterns *)

Lemma GetSubstitution_plain (matched before after : jsstring)
    (caps : list (option jsstring)) (template : jsstring) :
  Forall (fun c => c <> DOLLAR) template ->
  GetSubstitution matched before after caps template = template.
Proof.
  induction 1 as [|c t Hc _ IH]; [reflexivity|].
  cbn [GetSubstitution].
  destruct (c =? DOLLAR)%N eqn:E.
  - apply N.eqb_eq in E. contradiction.
  - now rewrite IH.
Qed.

(** ** Literals *)

Lemma strip_prefix_app (tok rest : jsstring) :
  strip_prefix tok (tok ++ rest) = Some rest.
Proof.
  induction tok as [|t tok IH]; [reflexivity|].
  cbn. now rewrite N.eqb_refl.
Qed.

Lemma strip_prefix_Some (tok s rest : jsstring) :
  strip_prefix tok s = Some rest -> s = tok ++ rest.
Proof.
  revert s. induction tok as [|t tok IH]; intros s H.
  - cbn in H. now injection H as ->.
  - destruct s as [|c s]; [discriminate|]. cbn in H.
    destruct (t =? c)%N eqn:E; [|discriminate].
    apply N.eqb_eq in E. subst c. cbn. f_equal. now apply IH.
Qed.

(** ** The star and the end token *)

Section Star.

Variable endTok : jsstring.

Lemma star_then_end_sound (s : jsstring) : forall n : nat,
  star_then_end endTok s = Some n ->
  exists body after,
    s = body ++ endTok ++ after
    /\ length body = n
    /\ Forall (fun c => dot_or_nl c = true) body
    /\ assert_line_end after = true.
Proof.
  assert (Z : forall s n, (if end_here endTok s then Some 0 else None) = Some n ->
              exists body after,
                s = body ++ endTok ++ after /\ length body = n
                /\ Forall (fun c => dot_or_nl c = true) body
                /\ assert_line_end after = true).
  { intros s0 n H. unfold end_here in H.
    destruct (strip_prefix endTok s0) as [after|] eqn:E; [|discriminate].
    destruct (assert_line_end after) eqn:A; [|discriminate].
    injection H as <-. apply strip_prefix_Some in E.
    exists [], after. repeat split; auto. }
  induction s as [|c s IH]; intros n H; cbn [star_then_end] in H.
  - now apply Z.
  - destruct (dot_or_nl c) eqn:D; [|now apply Z].
    destruct (star_then_end endTok s) as [k|] eqn:K; [|now apply Z].
    injection H as <-.
    destruct (IH k eq_refl) as [body [after [-> [Hl [Hb Ha]]]]].
    exists (c :: body), after. repeat split; cbn; auto.
Qed.

Lemma star_then_end_tail (c : N) (s : jsstring) :
  star_then_end endTok (c :: s) = None ->
  dot_or_nl c = true ->
  star_then_end endTok s = None.
Proof.
  cbn [star_then_end]. intros H D. rewrite D in H.
  destruct (star_then_end endTok s); [discriminate | reflexivity].
Qed.

Lemma star_then_end_prefix (pfx rest : jsstring) (k : nat) :
  Forall (fun c => dot_or_nl c = true) pfx ->
  star_then_end endTok rest = Some k ->
  star_then_end endTok (pfx ++ rest) = Some (length pfx + k).
Proof.
  intros Hp Hk. induction Hp as [|c pfx Hc _ IH]; [exact Hk|].
  cbn [app star_then_end length]. now rewrite Hc, IH.
Qed.

Lemma star_then_end_exact (body rest : jsstring) :
  star_then_end endTok (body ++ rest) = Some (length body) ->
  star_then_end endTok rest = Some 0.
Proof.
  induction body as [|c body IH]; [trivial|].
  cbn [app star_then_end length]. intros H.
  destruct (dot_or_nl c).
  - destruct (star_then_end endTok (body ++ rest)) as [k|] eqn:K.
    + injection H as ->. now apply IH.
    + destruct (end_here endTok (c :: body ++ rest)); discriminate.
  - destruct (end_here endTok (c :: body ++ rest)); discriminate.
Qed.

Lemma end_here_found (s : jsstring) :
  end_here endTok s = true -> star_then_end endTok s <> None.
Proof.
  intros H. destruct s as [|c s]; cbn [star_then_end]; rewrite H.
  - discriminate.
  - destruct (dot_or_nl c); [|discriminate].
    destruct (star_then_end endTok s); discriminate.
Qed.

Lemma star_then_end_complete (body after : jsstring) :
  Forall (fun c => dot_or_nl c = true) body ->
  assert_line_end after = true ->
  star_then_end endTok (body ++ endTok ++ after) <> None.
Proof.
  intros Hb Ha.
  assert (E : star_then_end endTok (endTok ++ after) <> None).
  { apply end_here_found. unfold end_here.
    now rewrite strip_prefix_app. }
  destruct (star_then_end endTok (endTok ++ after)) as [k|] eqn:K;
    [|contradiction].
  rewrite star_then_end_prefix with (k := k) by assumption. discriminate.
Qed.

End Star.

(** ** Positions without a match *)

Section NoMatch.

Variable re : Matcher.
Variable template : jsstring.

Lemma replace_prefix_no_match (pre rest : jsstring) :
  forall before,
    (forall s1 s2, pre = s1 ++ s2 -> s2 <> [] ->
                   re (before ++ s1) (s2 ++ rest) = None) ->
    replace_loop re template 0 before (pre ++ rest)
    = pre ++ replace_loop re template 0 (before ++ pre) rest.
Proof.
  induction pre as [|c pre IH]; intros before H.
  - cbn [app]. now rewrite app_nil_r.
  - cbn [app replace_loop].
    pose proof (H [] (c :: pre) eq_refl) as H0.
    rewrite app_nil_r in H0. cbn [app] in H0.
    rewrite H0 by discriminate. f_equal.
    rewrite IH.
    + now rewrite <- app_assoc.
    + intros s1 s2 E Hne. rewrite <- app_assoc. cbn [app].
      apply (H (c :: s1) s2); [now rewrite E | exact Hne].
Qed.

Lemma replace_no_match (s : jsstring) :
  forall before,
    (forall s1 s2, s = s1 ++ s2 -> re (before ++ s1) s2 = None) ->
    replace_loop re template 0 before s = s.
Proof.
  induction s as [|c s IH]; intros before H.
  - cbn [replace_loop].
    pose proof (H [] [] eq_refl) as H0. rewrite app_nil_r in H0.
    now rewrite H0.
  - cbn [replace_loop].
    pose proof (H [] (c :: s) eq_refl) as H0. rewrite app_nil_r in H0.
    rewrite H0. f_equal. apply IH.
    intros s1 s2 E. rewrite <- app_assoc. cbn [app].
    apply (H (c :: s1) s2). now rewrite E.
Qed.

End NoMatch.


(** ** The sentinel expression under a pattern-free template *)

Lemma assert_line_start_snoc (before : jsstring) (c : N) :
  assert_line_start (before ++ [c]) = isLineTerminator c.
Proof.
  unfold assert_line_start. rewrite last_last.
  destruct before; reflexivity.
Qed.

Lemma assert_line_start_app (before mid : jsstring) :
  mid <> [] ->
  assert_line_start (before ++ mid) = isLineTerminator (last mid 0%N).
Proof.
  intros H. destruct (exists_last H) as [mid' [c ->]].
  rewrite app_assoc, assert_line_start_snoc. now rewrite last_last.
Qed.

Lemma dot_or_nl_of_dot (c : N) : isLineTerminator c = false -> dot_or_nl c = true.
Proof. unfold dot_or_nl, dot. now intros ->. Qed.

Lemma blocker_is_terminator (c : N) :
  dot_or_nl c = false -> isLineTerminator c = true.
Proof.
  unfold dot_or_nl, dot. destruct (isLineTerminator c); [reflexivity|].
  discriminate.
Qed.

Section SentinelReplace.

Variables startTok endTok template : jsstring.

Hypothesis template_plain : Forall (fun c => c <> DOLLAR) template.
Hypothesis start_on_one_line :
  Forall (fun c => isLineTerminator c = false) startTok.
Hypothesis end_on_one_line :
  Forall (fun c => isLineTerminator c = false) endTok.
Hypothesis start_not_empty : startTok <> [].
Hypothesis end_not_empty : endTok <> [].

Let re : Matcher := sentinel_regex_of startTok endTok.
Let opening : jsstring := startTok ++ [NL].

Lemma opening_dot_or_nl : Forall (fun c => dot_or_nl c = true) opening.
Proof.
  apply Forall_app. split.
  - eapply Forall_impl; [|exact start_on_one_line].
    intros c. apply dot_or_nl_of_dot.
  - repeat constructor.
Qed.

Lemma opening_not_empty : opening <> [].
Proof. unfold opening. destruct startTok; discriminate. Qed.

(** What a match at a position consists of. *)
Lemma re_Some (before s : jsstring) (m : MatchResult) :
  re before s = Some m ->
  exists body after,
    s = opening ++ body ++ endTok ++ after
    /\ matched_len m = length (opening ++ body ++ endTok)
    /\ assert_line_start before = true
    /\ star_then_end endTok (body ++ endTok ++ after) = Some (length body)
    /\ Forall (fun c => dot_or_nl c = true) body
    /\ assert_line_end after = true.
Proof.
  unfold re, sentinel_regex_of. fold opening.
  destruct (assert_line_start before); [|discriminate].
  destruct (strip_prefix opening s) as [rest|] eqn:P; [|discriminate].
  destruct (star_then_end endTok rest) as [n|] eqn:K; [|discriminate].
  intros H. injection H as <-. cbn [matched_len].
  apply strip_prefix_Some in P.
  destruct (star_then_end_sound _ _ _ K) as [body [after [-> [Hl [Hb Ha]]]]].
  exists body, after. subst n. repeat split; auto.
  unfold opening. rewrite !length_app. cbn [length]. lia.
Qed.

Lemma re_match (before body after : jsstring) :
  assert_line_start before = true ->
  star_then_end endTok (body ++ endTok ++ after) = Some (length body) ->
  exists m,
    re before (opening ++ body ++ endTok ++ after) = Some m
    /\ matched_len m = length (opening ++ body ++ endTok).
Proof.
  intros Hb Hk. unfold re, sentinel_regex_of. fold opening.
  rewrite Hb, strip_prefix_app, Hk. eexists. split; [reflexivity|].
  cbn [matched_len]. unfold opening. rewrite !length_app. cbn [length]. lia.
Qed.

Lemma re_not_at_line_start (before s : jsstring) :
  assert_line_start before = false -> re before s = None.
Proof. unfold re, sentinel_regex_of. now intros ->. Qed.

Lemma re_before (b1 b2 s : jsstring) :
  assert_line_start b1 = assert_line_start b2 -> re b1 s = re b2 s.
Proof. unfold re, sentinel_regex_of. now intros ->. Qed.

Lemma re_nil (before : jsstring) : re before [] = None.
Proof.
  unfold re, sentinel_regex_of.
  destruct (assert_line_start before); [|reflexivity].
  destruct startTok; reflexivity.
Qed.

(** A position whose first code unit no literal of the expression can
    start with. *)
Lemma re_blocker (before : jsstring) (c : N) (s : jsstring) :
  dot_or_nl c = false -> re before (c :: s) = None.
Proof.
  intros D. destruct (re before (c :: s)) as [m|] eqn:E; [|reflexivity].
  apply re_Some in E. destruct E as [body [after [E _]]].
  pose proof opening_dot_or_nl as O. pose proof opening_not_empty as Hne.
  destruct opening as [|o op]; [contradiction|].
  injection E as -> _. inversion O. congruence.
Qed.

(** The loop. *)

Lemma loop_nil (before : jsstring) :
  replace_loop re template 0 before [] = [].
Proof. cbn. now rewrite re_nil. Qed.

Lemma loop_no_match (before : jsstring) (c : N) (s : jsstring) :
  re before (c :: s) = None ->
  replace_loop re template 0 before (c :: s)
  = c :: replace_loop re template 0 (before ++ [c]) s.
Proof. cbn [replace_loop]. now intros ->. Qed.

Lemma loop_skip (mt rest : jsstring) :
  forall before,
    replace_loop re template (length mt) before (mt ++ rest)
    = replace_loop re template 0 (before ++ mt) rest.
Proof.
  induction mt as [|c mt IH]; intros before.
  - cbn [length app]. now rewrite app_nil_r.
  - cbn [length app replace_loop]. rewrite IH.
    now rewrite <- app_assoc.
Qed.

Lemma loop_match (before body after : jsstring) :
  assert_line_start before = true ->
  star_then_end endTok (body ++ endTok ++ after) = Some (length body) ->
  replace_loop re template 0 before (opening ++ body ++ endTok ++ after)
  = template
    ++ replace_loop re template 0
         (before ++ opening ++ body ++ endTok) after.
Proof.
  intros Hb Hk.
  destruct (re_match before body after Hb Hk) as [m [Hm Hl]].
  pose proof opening_not_empty as Hne.
  remember (opening ++ body ++ endTok ++ after) as s eqn:Es.
  destruct s as [|c s'].
  { destruct opening; [contradiction | discriminate]. }
  cbn [replace_loop]. rewrite Hm. cbv zeta.
  rewrite GetSubstitution_plain by exact template_plain. f_equal.
  rewrite Hl.
  destruct opening as [|o op] eqn:Eo; [contradiction|].
  cbn [app length] in *. injection Es as <- ->.
  replace (op ++ body ++ endTok ++ after)
    with ((op ++ body ++ endTok) ++ after)
    by (now rewrite <- !app_assoc).
  rewrite loop_skip. now rewrite <- app_assoc.
Qed.

(** The loop looks at the input before a position only to tell whether
    the position starts a line. *)
Lemma loop_before (s : jsstring) :
  forall k b1 b2,
    (k = 0 -> assert_line_start b1 = assert_line_start b2) ->
    replace_loop re template k b1 s = replace_loop re template k b2 s.
Proof.
  induction s as [|c s IH]; intros k b1 b2 H.
  - destruct k; [|reflexivity]. now rewrite !loop_nil.
  - cbn [replace_loop]. destruct k as [|k].
    + rewrite (re_before b1 b2 (c :: s) (H eq_refl)).
      destruct (re b2 (c :: s)) as [m|].
      * rewrite !GetSubstitution_plain by exact template_plain. f_equal.
        destruct (matched_len m); [f_equal|];
          apply IH; intros _; now rewrite !assert_line_start_snoc.
      * f_equal. apply IH. intros _. now rewrite !assert_line_start_snoc.
    + apply IH. intros _. now rewrite !assert_line_start_snoc.
Qed.

(** No match starts inside a stretch without line terminators. *)
Lemma loop_one_line (mid s : jsstring) :
  Forall (fun c => isLineTerminator c = false) mid ->
  forall before,
    assert_line_start before = false ->
    replace_loop re template 0 before (mid ++ s)
    = mid ++ replace_loop re template 0 (before ++ mid) s.
Proof.
  induction 1 as [|c mid Hc _ IH]; intros before Hb.
  - cbn [app]. now rewrite app_nil_r.
  - cbn [app]. rewrite loop_no_match by now apply re_not_at_line_start.
    rewrite IH by now rewrite assert_line_start_snoc.
    now rewrite <- app_assoc.
Qed.

(** *** Stretches where the end token is out of reach *)

Lemma end_here_cut (tok : jsstring) :
  Forall (fun c => isLineTerminator c = false) tok ->
  forall (run : jsstring) (b : N) (r1 r2 : jsstring),
    isLineTerminator b = true ->
    end_here tok (run ++ b :: r1) = end_here tok (run ++ b :: r2).
Proof.
  unfold end_here.
  induction 1 as [|t tok Ht _ IH]; intros run b r1 r2 Hb.
  - cbn [strip_prefix]. destruct run; reflexivity.
  - destruct run as [|c run]; cbn [app strip_prefix].
    + destruct (t =? b)%N eqn:E; [|reflexivity].
      apply N.eqb_eq in E. congruence.
    + destruct (t =? c)%N; [|reflexivity]. now apply IH.
Qed.

Lemma star_then_end_cut (run : jsstring) (b : N) (r1 r2 : jsstring) :
  dot_or_nl b = false ->
  star_then_end endTok (run ++ b :: r1)
  = star_then_end endTok (run ++ b :: r2).
Proof.
  intros D. pose proof (blocker_is_terminator _ D) as T.
  induction run as [|c run IH].
  - pose proof (end_here_cut _ end_on_one_line [] b r1 r2 T) as C.
    cbn [app star_then_end] in *. rewrite D. now rewrite C.
  - pose proof (end_here_cut _ end_on_one_line (c :: run) b r1 r2 T) as C.
    cbn [app star_then_end] in *. rewrite IH. now rewrite C.
Qed.

(** Where the end token cannot be reached from, the loop copies the
    input up to the next code unit the star cannot pass. *)
Lemma loop_quiet (s : jsstring) :
  star_then_end endTok s = None ->
  forall before,
  exists run rest,
    s = run ++ rest
    /\ (rest = [] \/ exists b r, rest = b :: r /\ dot_or_nl b = false)
    /\ replace_loop re template 0 before s
       = run ++ replace_loop re template 0 (before ++ run) rest.
Proof.
  induction s as [|c s IH]; intros Q before.
  - exists [], []. repeat split; [now left|]. cbn [app].
    now rewrite app_nil_r.
  - destruct (dot_or_nl c) eqn:D.
    + assert (M : re before (c :: s) = None).
      { destruct (re before (c :: s)) as [m|] eqn:M; [|reflexivity].
        apply re_Some in M.
        destruct M as [body [after [E [_ [_ [_ [Hb Ha]]]]]]].
        exfalso. rewrite E, app_assoc in Q. revert Q.
        apply star_then_end_complete; [|exact Ha].
        apply Forall_app. split; [apply opening_dot_or_nl | exact Hb]. }
      destruct (IH (star_then_end_tail _ _ _ Q D) (before ++ [c]))
        as [run [rest [E [R L]]]].
      exists (c :: run), rest. subst s. repeat split; [exact R|].
      rewrite loop_no_match by exact M. rewrite L.
      cbn [app]. now rewrite <- app_assoc.
    + exists [], (c :: s). repeat split.
      * right. exists c, s. auto.
      * cbn [app]. now rewrite app_nil_r.
Qed.

Lemma quiet_preserved (s before : jsstring) :
  star_then_end endTok s = None ->
  star_then_end endTok (replace_loop re template 0 before s) = None.
Proof.
  intros Q. destruct (loop_quiet _ Q before) as [run [rest [E [R L]]]].
  rewrite L. destruct R as [->|[b [r [-> D]]]].
  - rewrite loop_nil. now rewrite <- E.
  - rewrite loop_no_match by now apply re_blocker.
    rewrite star_then_end_cut with (r2 := r) by exact D.
    now rewrite <- E.
Qed.

(** *** Literals in the output *)

Lemma strip_prefix_loop (tok : jsstring) :
  (forall pre c post,
      tok = pre ++ c :: post -> post <> [] -> isLineTerminator c = false) ->
  forall s before,
    strip_prefix tok (replace_loop re template 0 before s) <> None ->
    strip_prefix tok s <> None \/ re before s <> None.
Proof.
  induction tok as [|t tok IH]; intros Htok s before H.
  - left. discriminate.
  - destruct s as [|c s]; [now rewrite loop_nil in H|].
    destruct (re before (c :: s)) as [m|] eqn:M; [right; discriminate|].
    left. rewrite loop_no_match in H by exact M. cbn [strip_prefix] in *.
    destruct (t =? c)%N eqn:E; [|contradiction].
    apply N.eqb_eq in E. subst c.
    destruct (IH (fun pre c post Hd => Htok (t :: pre) c post
                                         (f_equal (cons t) Hd))
                 s (before ++ [t]) H) as [G|G]; [exact G|].
    destruct (assert_line_start (before ++ [t])) eqn:A.
    2:{ now rewrite re_not_at_line_start in G. }
    rewrite assert_line_start_snoc in A.
    destruct tok as [|t' tok]; [discriminate|].
    rewrite (Htok [] t (t' :: tok) eq_refl) in A; discriminate.
Qed.

Lemma opening_one_line :
  forall pre c post,
    opening = pre ++ c :: post -> post <> [] -> isLineTerminator c = false.
Proof.
  intros pre c post E Hp. destruct (exists_last Hp) as [post' [x ->]].
  unfold opening in E.
  change (pre ++ c :: post' ++ [x]) with (pre ++ (c :: post') ++ [x]) in E.
  rewrite app_assoc in E. apply app_inj_tail in E. destruct E as [E _].
  rewrite Forall_forall in start_on_one_line.
  apply start_on_one_line. rewrite E. apply in_elt.
Qed.

Lemma assert_line_start_one_line (before mid : jsstring) :
  Forall (fun c => isLineTerminator c = false) mid ->
  mid <> [] ->
  assert_line_start (before ++ mid) = false.
Proof.
  intros F H. destruct (exists_last H) as [mid' [x ->]].
  rewrite app_assoc, assert_line_start_snoc.
  rewrite Forall_forall in F. apply F. apply in_elt.
Qed.

Lemma re_opening_quiet (before x : jsstring) :
  star_then_end endTok x = None -> re before (opening ++ x) = None.
Proof.
  intros Q. unfold re, sentinel_regex_of. fold opening.
  destruct (assert_line_start before); [|reflexivity].
  now rewrite strip_prefix_app, Q.
Qed.

Lemma re_no_opening (before s : jsstring) :
  strip_prefix opening s = None -> re before s = None.
Proof.
  intros P. unfold re, sentinel_regex_of. fold opening.
  destruct (assert_line_start before); [|reflexivity]. now rewrite P.
Qed.

(** A position without a match has none in the output either. *)
Lemma no_match_preserved (before : jsstring) (c : N) (s : jsstring) :
  re before (c :: s) = None ->
  re before (c :: replace_loop re template 0 (before ++ [c]) s) = None.
Proof.
  intros M.
  destruct (assert_line_start before) eqn:A;
    [|now apply re_not_at_line_start].
  destruct (strip_prefix opening (c :: s)) as [body|] eqn:P.
  - assert (Q : star_then_end endTok body = None).
    { unfold re, sentinel_regex_of in M. fold opening in M.
      rewrite A, P in M.
      destruct (star_then_end endTok body); [discriminate | reflexivity]. }
    apply strip_prefix_Some in P.
    assert (Hs : exists t0 st, startTok = t0 :: st /\
                   Forall (fun c => isLineTerminator c = false) (t0 :: st)).
    { pose proof start_on_one_line as F. clear - F start_not_empty.
      destruct startTok as [|t0 st]; [contradiction|]. eauto. }
    destruct Hs as [t0 [st [Es F]]].
    assert (Eo : opening = t0 :: st ++ [NL])
      by (unfold opening; now rewrite Es).
    rewrite Eo in P. cbn [app] in P. injection P as Ec Es'.
    rewrite Ec, Es'. rewrite <- app_assoc.
    destruct (proj1 (Forall_cons_iff _ _ _) F) as [Ht0 Hst].
    rewrite loop_one_line
      by (assumption || now rewrite assert_line_start_snoc).
    cbn [app].
    rewrite loop_no_match.
    2:{ apply re_not_at_line_start. rewrite <- app_assoc.
        apply assert_line_start_one_line; [exact F | discriminate]. }
    replace (t0 :: st ++ NL :: replace_loop re template 0
               (((before ++ [t0]) ++ st) ++ [NL]) body)
      with (opening ++ replace_loop re template 0
               (((before ++ [t0]) ++ st) ++ [NL]) body)
      by (rewrite Eo; cbn [app]; now rewrite <- app_assoc).
    apply re_opening_quiet. now apply quiet_preserved.
  - destruct (strip_prefix opening
                (c :: replace_loop re template 0 (before ++ [c]) s))
      as [x|] eqn:P'; [|now apply re_no_opening].
    exfalso.
    assert (H : strip_prefix opening
                  (replace_loop re template 0 before (c :: s)) <> None).
    { rewrite loop_no_match by exact M. now rewrite P'. }
    apply (strip_prefix_loop _ opening_one_line) in H.
    destruct H as [H|H]; [now rewrite P in H | now rewrite M in H].
Qed.

(** *** A single region *)

Lemma loop_unique_region (before body after : jsstring) :
  (forall x y,
      before ++ opening ++ body ++ endTok ++ after = x ++ startTok ++ y ->
      x = before) ->
  (forall x y,
      before ++ opening ++ body ++ endTok ++ after = x ++ endTok ++ y ->
      x = before ++ opening ++ body) ->
  assert_line_start before = true ->
  assert_line_end after = true ->
  Forall (fun c => dot_or_nl c = true) body ->
  replace_loop re template 0 []
    (before ++ opening ++ body ++ endTok ++ after)
  = before ++ template ++ after.
Proof.
  intros U1 U2 A Ha Hb.
  rewrite replace_prefix_no_match.
  2:{ intros s1 s2 E Hne. cbn [app].
      destruct (re s1 (s2 ++ opening ++ body ++ endTok ++ after))
        as [m|] eqn:M; [|reflexivity].
      exfalso. apply re_Some in M. destruct M as [b' [a' [M _]]].
      unfold opening in M at 2. rewrite <- !app_assoc in M.
      assert (X : s1 = before).
      { apply (U1 s1 ([NL] ++ b' ++ endTok ++ a')).
        rewrite E, <- app_assoc. now rewrite M. }
      rewrite X in E. apply (f_equal (@length N)) in E.
      rewrite length_app in E. destruct s2; [contradiction|].
      cbn [length] in E. lia. }
  cbn [app]. f_equal.
  assert (K : star_then_end endTok (body ++ endTok ++ after)
              = Some (length body)).
  { destruct (star_then_end endTok (body ++ endTok ++ after)) as [n|] eqn:K.
    2:{ exfalso. revert K. now apply star_then_end_complete. }
    destruct (star_then_end_sound _ _ _ K) as [b' [a' [E [Hl _]]]].
    assert (X : (before ++ opening ++ b') = before ++ opening ++ body).
    { apply (U2 _ a'). rewrite <- !app_assoc. now rewrite E. }
    apply app_inv_head in X. apply app_inv_head in X.
    now rewrite <- Hl, X. }
  rewrite loop_match by assumption. f_equal.
  apply replace_no_match. intros a1 a2 E.
  destruct (re ((before ++ opening ++ body ++ endTok) ++ a1) a2)
    as [m|] eqn:M; [|reflexivity].
  exfalso. apply re_Some in M. destruct M as [b' [a' [M _]]].
  unfold opening in M at 1. rewrite <- !app_assoc in M.
  assert (X : (before ++ opening ++ body ++ endTok) ++ a1 = before).
  { apply (U1 _ ([NL] ++ b' ++ endTok ++ a')).
    rewrite E, M. now rewrite <- !app_assoc. }
  apply (f_equal (@length N)) in X. rewrite !length_app in X.
  pose proof opening_not_empty as O.
  destruct opening; [contradiction|]. cbn [length] in X. lia.
Qed.

(** *** Replacing twice *)

Lemma line_end_preserved (before after : jsstring) :
  assert_line_start before = false ->
  assert_line_end after = true ->
  assert_line_end (replace_loop re template 0 before after) = true.
Proof.
  intros A H. destruct after as [|c after]; [now rewrite loop_nil|].
  rewrite loop_no_match by now apply re_not_at_line_start. exact H.
Qed.

Lemma star_then_end_zero (e0 : N) (e x : jsstring) :
  dot_or_nl e0 = true ->
  end_here endTok (e0 :: e ++ x) = assert_line_end x ->
  (star_then_end endTok (e0 :: e ++ x) = Some 0
   <-> star_then_end endTok (e ++ x) = None /\ assert_line_end x = true).
Proof.
  intros D H. cbn [star_then_end]. rewrite D, H.
  destruct (star_then_end endTok (e ++ x));
    destruct (assert_line_end x); intuition discriminate.
Qed.

(** The end token that closed a match is still the last one within reach
    once the text after it has been through the loop. *)
Lemma end_kept (before after : jsstring) :
  star_then_end endTok (endTok ++ after) = Some 0 ->
  star_then_end endTok
    (endTok ++ replace_loop re template 0 (before ++ endTok) after)
  = Some 0.
Proof.
  intros H.
  assert (He : exists e0 e, endTok = e0 :: e
               /\ Forall (fun c => isLineTerminator c = false) (e0 :: e)).
  { pose proof end_on_one_line as F. clear - F end_not_empty.
    destruct endTok as [|e0 e]; [contradiction|]. eauto. }
  destruct He as [e0 [e [Ee F]]].
  destruct (proj1 (Forall_cons_iff _ _ _) F) as [He0 He].
  assert (G : forall x, end_here endTok (e0 :: e ++ x) = assert_line_end x).
  { intros x. change (e0 :: e ++ x) with ((e0 :: e) ++ x). rewrite <- Ee.
    unfold end_here. now rewrite strip_prefix_app. }
  assert (Hcons : forall x, endTok ++ x = e0 :: e ++ x)
    by (intros x; now rewrite Ee).
  rewrite Hcons in H. rewrite Hcons.
  apply (star_then_end_zero e0 e _ (dot_or_nl_of_dot _ He0) (G _)) in H.
  destruct H as [Q Ha].
  apply (star_then_end_zero e0 e _ (dot_or_nl_of_dot _ He0) (G _)).
  assert (A : assert_line_start (before ++ [e0]) = false)
    by now rewrite assert_line_start_snoc.
  assert (B : before ++ endTok = (before ++ [e0]) ++ e)
    by (rewrite Ee, <- app_assoc; reflexivity).
  split.
  - rewrite B, <- loop_one_line by assumption. now apply quiet_preserved.
  - apply line_end_preserved; [|exact Ha].
    rewrite Ee. apply assert_line_start_one_line; [exact F | discriminate].
Qed.

Variable fragment : jsstring.
Hypothesis fragment_passable :
  Forall (fun c => dot_or_nl c = true) fragment.
Hypothesis template_shape :
  template = opening ++ (fragment ++ [NL]) ++ endTok.

Lemma loop_idempotent (n : nat) :
  forall s before,
    length s <= n ->
    replace_loop re template 0 before (replace_loop re template 0 before s)
    = replace_loop re template 0 before s.
Proof.
  induction n as [|n IH]; intros s before Hn.
  - destruct s; [|cbn in Hn; lia]. now rewrite !loop_nil.
  - destruct s as [|c s]; [now rewrite !loop_nil|].
    destruct (re before (c :: s)) as [m|] eqn:M.
    + apply re_Some in M.
      destruct M as [body [after [E [Hl [A [K [Hb Ha]]]]]]].
      rewrite E. rewrite loop_match by assumption.
      assert (La : length after <= n).
      { apply (f_equal (@length N)) in E. rewrite !length_app in E.
        pose proof opening_not_empty as O.
        destruct opening; [contradiction|]. cbn [length] in *. lia. }
      set (b := before ++ opening ++ body ++ endTok).
      assert (Eb : b = (before ++ opening ++ body) ++ endTok)
        by (unfold b; now rewrite <- !app_assoc).
      assert (K' : star_then_end endTok
                     ((fragment ++ [NL]) ++ endTok
                      ++ replace_loop re template 0 b after)
                   = Some (length (fragment ++ [NL]))).
      { rewrite star_then_end_prefix with (k := 0).
        - now rewrite Nat.add_0_r.
        - apply Forall_app. split; [exact fragment_passable|].
          repeat constructor.
        - rewrite Eb. apply end_kept.
          now apply star_then_end_exact with (body := body). }
      assert (Et : template ++ replace_loop re template 0 b after
                   = opening ++ (fragment ++ [NL]) ++ endTok
                     ++ replace_loop re template 0 b after).
      { rewrite template_shape at 1. now rewrite <- !app_assoc. }
      rewrite Et. rewrite loop_match by assumption. rewrite <- Et.
      f_equal.
      rewrite loop_before with (b2 := b).
      * now apply IH.
      * intros _. unfold b.
        rewrite !app_assoc.
        rewrite !assert_line_start_app by exact end_not_empty.
        reflexivity.
    + rewrite loop_no_match by exact M.
      rewrite loop_no_match by now apply no_match_preserved.
      f_equal. apply IH. cbn [length] in Hn. lia.
Qed.

End SentinelReplace.


(** ** The splice *)

Lemma startsWith_app (tok rest : jsstring) : startsWith tok (tok ++ rest) = true.
Proof.
  induction tok as [|t tok IH]; [reflexivity|].
  cbn. now rewrite N.eqb_refl.
Qed.

Lemma indices_from_occurrence (tok x y : jsstring) :
  forall i, In (i + length x) (indices_from tok (x ++ tok ++ y) i).
Proof.
  induction x as [|c x IH]; intros i.
  - cbn [app length]. rewrite Nat.add_0_r.
    destruct (tok ++ y) eqn:E; cbn [indices_from]; rewrite <- E;
      rewrite startsWith_app; now left.
  - cbn [app indices_from length]. apply in_or_app. right.
    replace (i + S (length x)) with (S i + length x) by lia. apply IH.
Qed.

Lemma app_eq_prefix (a b c d : jsstring) :
  a ++ b = c ++ d -> length a = length c -> a = c.
Proof.
  revert c. induction a as [|x a IH]; intros [|y c] E L;
    try discriminate; [reflexivity|].
  cbn in E, L. injection E as -> E. f_equal. apply IH; [exact E | lia].
Qed.

Lemma single_occurrence (tok text pre post : jsstring) :
  text = pre ++ tok ++ post ->
  indices tok text = [length pre] ->
  forall x y, text = x ++ tok ++ y -> x = pre.
Proof.
  intros E I x y E'.
  pose proof (indices_from_occurrence tok x y 0) as H.
  rewrite <- E' in H. fold (indices tok text) in H. rewrite I in H.
  destruct H as [H|[]]. cbn in H.
  apply app_eq_prefix with (b := tok ++ y) (d := tok ++ post);
    [congruence | lia].
Qed.

Lemma Forall_of_forallb (f : N -> bool) (l : jsstring) :
  forallb f l = true -> Forall (fun c => f c = true) l.
Proof. intros H. apply Forall_forall. now apply forallb_forall. Qed.

Lemma startReplacerToken_one_line :
  Forall (fun c => isLineTerminator c = false) startReplacerToken.
Proof.
  eapply Forall_impl;
    [|apply (Forall_of_forallb (fun c => negb (isLineTerminator c)));
      reflexivity].
  intros c. apply negb_true_iff.
Qed.

Lemma endReplacerToken_one_line :
  Forall (fun c => isLineTerminator c = false) endReplacerToken.
Proof.
  eapply Forall_impl;
    [|apply (Forall_of_forallb (fun c => negb (isLineTerminator c)));
      reflexivity].
  intros c. apply negb_true_iff.
Qed.

Lemma replacement_plain (fragment : jsstring) :
  noPatterns fragment = true ->
  Forall (fun c => c <> DOLLAR) (replacement fragment).
Proof.
  intros H.
  assert (P : forall l, noPatterns l = true -> Forall (fun c => c <> DOLLAR) l).
  { intros l Hl. apply Forall_of_forallb in Hl.
    eapply Forall_impl; [|exact Hl]. cbn beta. intros c Hc.
    apply negb_true_iff in Hc. now apply N.eqb_neq. }
  unfold replacement.
  apply Forall_app; split; [apply P; reflexivity|].
  apply Forall_app; split; [apply P; reflexivity|].
  apply Forall_app; split; [apply P; exact H|].
  apply Forall_app; split; apply P; reflexivity.
Qed.

(** C9.  When no part of the README is a start sentinel at the start of a
    line, a line feed, any text without other line terminators, and an end
    sentinel at the end of a line, the splice returns the README as it is,
    whatever the fragment. *)
Theorem insertedData_without_region (readmeMd : jsstring) :
  (forall before body after, ~ sentinel_region readmeMd before body after) ->
  forall apiMarkdownTable,
    insertedData readmeMd apiMarkdownTable = readmeMd.
Proof.
  intros H fragment. unfold insertedData, replace_global.
  apply replace_no_match. intros s1 s2 E. cbn [app].
  destruct (sentinel_regex s1 s2) as [m|] eqn:M; [|reflexivity].
  exfalso. apply re_Some in M.
  destruct M as [body [after [Es [_ [A [_ [Hb Ha]]]]]]].
  apply (H s1 body after). unfold sentinel_region.
  repeat split; try assumption.
  rewrite E, Es. now rewrite <- !app_assoc.
Qed.

Lemma insertedData_without_region_witness :
  insertedData (lit "# Drawer") (lit "| open | $& |") = lit "# Drawer".
Proof.
  apply (insertedData_without_region (lit "# Drawer")).
  intros before body after [E _].
  apply (f_equal (@length N)) in E. rewrite !length_app in E.
  change (length (lit "# Drawer")) with 8 in E.
  change (length startReplacerToken) with 93 in E. lia.
Defined.

(** C5, as the code has it.  In a README where each sentinel occurs once,
    the start sentinel at the start of a line and followed by a line feed,
    the end sentinel at the end of a line, with no line terminator other
    than line feeds between them, the splice of a fragment free of [$]
    puts the fragment and a line feed in place of the text between the
    sentinels' lines and leaves the rest of the README as it is. *)
Theorem insertedData_replaces_region
    (before body after apiMarkdownTable : jsstring) :
  indices startReplacerToken
    (before ++ startReplacerToken ++ [NL] ++ body ++ endReplacerToken ++ after)
  = [length before] ->
  indices endReplacerToken
    (before ++ startReplacerToken ++ [NL] ++ body ++ endReplacerToken ++ after)
  = [length (before ++ startReplacerToken ++ [NL] ++ body)] ->
  assert_line_start before = true ->
  assert_line_end after = true ->
  onlyLineFeeds body = true ->
  noPatterns apiMarkdownTable = true ->
  insertedData
    (before ++ startReplacerToken ++ [NL] ++ body ++ endReplacerToken ++ after)
    apiMarkdownTable
  = before ++ startReplacerToken ++ [NL] ++ apiMarkdownTable ++ [NL]
    ++ endReplacerToken ++ after.
Proof.
  intros I1 I2 A Ha Hb Hf.
  unfold insertedData, replace_global. fold (replacement apiMarkdownTable).
  assert (E : before ++ startReplacerToken ++ [NL] ++ body
              ++ endReplacerToken ++ after
              = before ++ (startReplacerToken ++ [NL]) ++ body
                ++ endReplacerToken ++ after)
    by now rewrite <- !app_assoc.
  rewrite E in *. unfold sentinel_regex.
  rewrite loop_unique_region.
  - unfold replacement. now rewrite <- !app_assoc.
  - now apply replacement_plain.
  - exact startReplacerToken_one_line.
  - discriminate.
  - intros x y Ex. eapply single_occurrence; [|exact I1|exact Ex].
    now rewrite <- !app_assoc.
  - intros x y Ex. eapply single_occurrence; [|exact I2|exact Ex].
    now rewrite <- !app_assoc.
  - exact A.
  - exact Ha.
  - now apply Forall_of_forallb.
Qed.

Lemma insertedData_replaces_region_witness :
  insertedData
    (lit "# Drawer" ++ [NL] ++ startReplacerToken ++ [NL]
       ++ (lit "old table" ++ [NL]) ++ endReplacerToken
       ++ ([NL] ++ lit "## Usage"))
    (lit "| open | Opens the drawer. |")
  = (lit "# Drawer" ++ [NL]) ++ startReplacerToken ++ [NL]
    ++ lit "| open | Opens the drawer. |" ++ [NL]
    ++ endReplacerToken ++ ([NL] ++ lit "## Usage").
Proof.
  apply (insertedData_replaces_region
           (lit "# Drawer" ++ [NL]) (lit "old table" ++ [NL])
           ([NL] ++ lit "## Usage") (lit "| open | Opens the drawer. |"));
    reflexivity.
Defined.

(** C4, as the code has it.  For a fragment free of [$] whose only line
    terminators are line feeds, splicing the fragment into the result of
    splicing it into a README changes nothing: the second pass finds the
    regions the first one wrote and writes them again. *)
Theorem insertedData_idempotent (readmeMd apiMarkdownTable : jsstring) :
  noPatterns apiMarkdownTable = true ->
  onlyLineFeeds apiMarkdownTable = true ->
  insertedData (insertedData readmeMd apiMarkdownTable) apiMarkdownTable
  = insertedData readmeMd apiMarkdownTable.
Proof.
  intros Hp Hl. unfold insertedData, replace_global, sentinel_regex.
  fold (replacement apiMarkdownTable).
  apply loop_idempotent with (fragment := apiMarkdownTable)
                             (n := length readmeMd).
  - now apply replacement_plain.
  - exact startReplacerToken_one_line.
  - exact endReplacerToken_one_line.
  - discriminate.
  - discriminate.
  - now apply Forall_of_forallb.
  - unfold replacement. now rewrite <- !app_assoc.
  - lia.
Qed.

Lemma insertedData_idempotent_witness :
  insertedData
    (insertedData
       (startReplacerToken ++ [NL] ++ lit "old" ++ [NL] ++ endReplacerToken)
       (lit "| open | Opens the drawer. |"))
    (lit "| open | Opens the drawer. |")
  = insertedData
      (startReplacerToken ++ [NL] ++ lit "old" ++ [NL] ++ endReplacerToken)
      (lit "| open | Opens the drawer. |").
Proof.
  apply insertedData_idempotent; reflexivity.
Defined.


(** Two READMEs with both sentinel lines and a placeholder between them on
    which the splice does not put the fragment in place of the placeholder:
    one whose placeholder line ends in CR LF is returned as it is, and the
    fragment [costs $$] is inserted as [costs $]. *)
Lemma insertedData_region_counterexample :
  insertedData crlfReadme (lit "new") = crlfReadme
  /\ insertedData crlfReadme (lit "new")
     <> startReplacerToken ++ [NL] ++ lit "new" ++ [NL] ++ endReplacerToken
  /\ insertedData placeholderReadme (lit "costs $$")
     = startReplacerToken ++ [NL] ++ lit "costs $" ++ [NL] ++ endReplacerToken
  /\ insertedData placeholderReadme (lit "costs $$")
     <> startReplacerToken ++ [NL] ++ lit "costs $$" ++ [NL]
        ++ endReplacerToken.
Proof.
  split; [vm_compute; reflexivity|].
  split; [intros H; apply (f_equal (@length N)) in H; vm_compute in H;
          discriminate H|].
  split; [vm_compute; reflexivity|].
  intros H; apply (f_equal (@length N)) in H; vm_compute in H; discriminate H.
Qed.

(** Two fragments for which a second splice changes the result of the
    first: [$&], which stands for the matched region and so wraps the
    region in one more pair of sentinels at each pass, and a fragment with
    the end sentinel followed by CR, where the second pass matches only up
    to that end sentinel. *)
Lemma insertedData_idempotence_counterexample :
  insertedData (insertedData placeholderReadme (lit "$&")) (lit "$&")
  <> insertedData placeholderReadme (lit "$&")
  /\ insertedData
       (insertedData placeholderReadme (endReplacerToken ++ [CR] ++ lit "x"))
       (endReplacerToken ++ [CR] ++ lit "x")
     <> insertedData placeholderReadme (endReplacerToken ++ [CR] ++ lit "x").
Proof.
  split; intros H; apply (f_equal (@length N)) in H; vm_compute in H;
    discriminate H.
Qed.

(** * Further properties *)

(** ** More on directory resolution *)

Lemma first_level_with_readme (readmeExists : jsstring -> bool)
    (filePath : jsstring) (k : nat) :
  readmeExists (ancestor (S k) filePath) = true ->
  exists k0,
    k0 <= k
    /\ readmeExists (ancestor (S k0) filePath) = true
    /\ forall j, j < k0 -> readmeExists (ancestor (S j) filePath) = false.
Proof.
  induction k as [k IH] using lt_wf_ind. intros Hk.
  destruct (existsb (fun j => readmeExists (ancestor (S j) filePath))
                    (seq 0 k)) eqn:E.
  - apply existsb_exists in E. destruct E as [j [Hj Ej]].
    apply in_seq in Hj. destruct (IH j) as [k0 [L [Y N]]]; [lia | exact Ej|].
    exists k0. repeat split; [lia | exact Y | exact N].
  - exists k. repeat split; [lia | exact Hk|].
    intros j Hj.
    destruct (readmeExists (ancestor (S j) filePath)) eqn:Ej; [|reflexivity].
    assert (X : existsb (fun j => readmeExists (ancestor (S j) filePath))
                        (seq 0 k) = true).
    { apply existsb_exists. exists j. split; [apply in_seq; lia | exact Ej]. }
    congruence.
Qed.

Lemma getFilePathName_returns_level (readmeExists : jsstring -> bool)
    (filePath found : jsstring) :
  getFilePathName_returns readmeExists filePath found ->
  exists k,
    k <= length filePath
    /\ found = ancestor (S k) filePath
    /\ readmeExists found = true
    /\ forall j, j < k -> readmeExists (ancestor (S j) filePath) = false.
Proof.
  induction 1 as [p Hp | p found Hp R IH].
  - exists 0. repeat split; [lia | exact Hp | intros j Hj; lia].
  - destruct IH as [k [L [E [Y N]]]].
    exists (S k). rewrite ancestor_S. repeat split; try assumption.
    + destruct p as [|c p].
      * exfalso. rewrite directoryPath_exhausted in *. cbn [length] in L.
        assert (k = 0) by lia. subst k. cbn in E. subst found. congruence.
      * pose proof (@directoryPath_shorter (c :: p)) as Hs.
        assert (c :: p <> []) as Hne by discriminate.
        specialize (Hs Hne). lia.
    + intros j Hj. destruct j as [|j]; [exact Hp|].
      rewrite ancestor_S. apply N. lia.
Qed.

(** X1.  On an unbounded stack getFilePathName returns a value exactly when
    one of the directories it probes has a README, and the value is the
    first such directory; the directories probed are the path's first
    [length filePath + 1] ancestors, the last of them the empty path. *)
Theorem getFilePathName_returns_iff_readme_up_the_chain
    (readmeExists : jsstring -> bool) (filePath found : jsstring) :
  getFilePathName_returns readmeExists filePath found
  <-> exists k,
        k <= length filePath
        /\ found = ancestor (S k) filePath
        /\ readmeExists found = true
        /\ forall j, j < k -> readmeExists (ancestor (S j) filePath) = false.
Proof.
  split; [apply getFilePathName_returns_level|].
  intros [k [_ [-> [Y N]]]].
  apply (getFilePathName_found readmeExists k filePath (S k) N Y).
  lia.
Qed.

(** X2.  On a stack with room for [stack + 1] frames getFilePathName never
    throws to its caller.  It returns the first probed directory with a
    README when there is one within [stack + 1] levels, logging nothing;
    otherwise it returns the empty string after logging one [RangeError]. *)
Theorem getFilePathName_on_bounded_stack
    (readmeExists : jsstring -> bool) (stack : nat) :
  forall filePath,
  exists found log,
    getFilePathName readmeExists (S stack) filePath = (Ok found, log)
    /\ ((log = []
         /\ readmeExists found = true
         /\ exists k,
              k <= stack
              /\ found = ancestor (S k) filePath
              /\ forall j, j < k ->
                   readmeExists (ancestor (S j) filePath) = false)
        \/ (log = [RangeError]
            /\ found = []
            /\ forall j, j <= stack ->
                 readmeExists (ancestor (S j) filePath) = false)).
Proof.
  induction stack as [|stack IH]; intros filePath;
    cbn [getFilePathName];
    destruct (readmeExists (directoryPath filePath)) eqn:E.
  - exists (directoryPath filePath), []. split; [reflexivity|]. left.
    repeat split; [exact E|]. exists 0. repeat split; [lia|intros j Hj; lia].
  - exists [], [RangeError]. split; [reflexivity|]. right.
    repeat split. intros j Hj. assert (j = 0) by lia. now subst j.
  - exists (directoryPath filePath), []. split; [reflexivity|]. left.
    repeat split; [exact E|]. exists 0. repeat split; [lia|intros j Hj; lia].
  - destruct (IH (directoryPath filePath)) as [found [log [H C]]].
    cbn [getFilePathName] in H. rewrite H.
    exists found, log. split; [reflexivity|].
    destruct C as [[Hl [Y [k [L [F N]]]]] | [Hl [F N]]].
    + left. repeat split; try assumption.
      exists (S k). rewrite ancestor_S. repeat split; [lia | exact F|].
      intros j Hj. destruct j as [|j]; [exact E|].
      rewrite ancestor_S. apply N. lia.
    + right. repeat split; try assumption.
      intros j Hj. destruct j as [|j]; [exact E|].
      rewrite ancestor_S. apply N. lia.
Qed.

(** *** The directory of a package file *)

Lemma startsWith_within (pat a b : jsstring) :
  startsWith pat (a ++ b) = true ->
  length pat <= length a ->
  startsWith pat a = true.
Proof.
  revert a. induction pat as [|p pat IH]; intros a H L; [reflexivity|].
  destruct a as [|c a]; [cbn in L; lia|].
  cbn [app startsWith] in *. apply andb_prop in H. destruct H as [H1 H2].
  rewrite H1. cbn [andb]. apply IH; [exact H2 | cbn in L; lia].
Qed.

Lemma indexOf_from_skip (pat pre s : jsstring) :
  forall i,
    (forall k, k < length pre ->
               startsWith pat (skipn k (pre ++ s)) = false) ->
    indexOf_from pat (pre ++ s) i
    = indexOf_from pat s (i + Z.of_nat (length pre)).
Proof.
  induction pre as [|c pre IH]; intros i H.
  - cbn [app length]. f_equal. lia.
  - cbn [app indexOf_from].
    pose proof (H 0) as H0. cbn [skipn app length] in H0.
    rewrite H0 by lia. rewrite IH.
    + f_equal. cbn [length]. lia.
    + intros k Hk. apply (H (S k)). cbn [length]. lia.
Qed.

Lemma indexOf_from_here (pat s : jsstring) (i : Z) :
  startsWith pat s = true -> indexOf_from pat s i = i.
Proof. intros H. destruct s; cbn [indexOf_from]; now rewrite H. Qed.

Lemma indexOf_from_none (pat s : jsstring) :
  forall i,
    (0 <= i)%Z ->
    (indexOf_from pat s i < 0)%Z ->
    forall k, startsWith pat (skipn k s) = false.
Proof.
  induction s as [|c s IH]; intros i Hi H k; cbn [indexOf_from] in H.
  - destruct (startsWith pat []) eqn:E; [lia|]. now destruct k.
  - destruct (startsWith pat (c :: s)) eqn:E; [lia|].
    destruct k as [|k]; [exact E|]. cbn [skipn].
    apply (IH (i + 1)%Z); [lia | exact H].
Qed.

Lemma lastIndexOf_from_none (pat s : jsstring) :
  forall i,
    (forall k, startsWith pat (skipn k s) = false) ->
    lastIndexOf_from pat s i = (-1)%Z.
Proof.
  induction s as [|c s IH]; intros i H; cbn [lastIndexOf_from].
  - pose proof (H 0) as H0. cbn in H0. now rewrite H0.
  - rewrite IH by (intros k; apply (H (S k))).
    pose proof (H 0) as H0. cbn [skipn] in H0. now rewrite H0.
Qed.

Lemma lastIndexOf_from_later (pat pre s : jsstring) :
  forall i,
    (0 <= lastIndexOf_from pat s (i + Z.of_nat (length pre)))%Z ->
    lastIndexOf_from pat (pre ++ s) i
    = lastIndexOf_from pat s (i + Z.of_nat (length pre)).
Proof.
  induction pre as [|c pre IH]; intros i H.
  - cbn [app length]. f_equal. lia.
  - cbn [app lastIndexOf_from].
    assert (E0 : (i + Z.of_nat (length (c :: pre))
                  = i + 1 + Z.of_nat (length pre))%Z)
      by (cbn [length]; lia).
    rewrite E0 in *. rewrite IH by exact H.
    destruct (lastIndexOf_from pat s (i + 1 + Z.of_nat (length pre)) <? 0)%Z
      eqn:E; [apply Z.ltb_lt in E; lia | reflexivity].
Qed.

Lemma lastIndexOf_from_here (pat : jsstring) (c : N) (s : jsstring) (i : Z) :
  startsWith pat (c :: s) = true ->
  (forall k, startsWith pat (skipn k s) = false) ->
  lastIndexOf_from pat (c :: s) i = i.
Proof.
  intros H N. cbn [lastIndexOf_from].
  rewrite lastIndexOf_from_none by exact N. now rewrite H.
Qed.

Lemma substring_middle (a b c : jsstring) :
  substring (a ++ b ++ c) (Z.of_nat (length a))
            (Z.of_nat (length a + length b)) = b.
Proof.
  unfold substring. rewrite !length_app.
  replace (Z.min
             (Z.min (Z.max (Z.of_nat (length a)) 0)
                (Z.of_nat (length a + (length b + length c))))
             (Z.min (Z.max (Z.of_nat (length a + length b)) 0)
                (Z.of_nat (length a + (length b + length c)))))
    with (Z.of_nat (length a)) by lia.
  replace (Z.max
             (Z.min (Z.max (Z.of_nat (length a)) 0)
                (Z.of_nat (length a + (length b + length c))))
             (Z.min (Z.max (Z.of_nat (length a + length b)) 0)
                (Z.of_nat (length a + (length b + length c))))
           - Z.of_nat (length a))%Z
    with (Z.of_nat (length b)) by lia.
  rewrite !Nat2Z.id.
  rewrite skipn_app, skipn_all, Nat.sub_diag. cbn [skipn app].
  rewrite firstn_app, firstn_all, Nat.sub_diag. cbn [firstn].
  now rewrite app_nil_r.
Qed.

(** X3.  For a source file [root/dir/file] whose directory [dir] starts with
    [mdc-], where no earlier part of the path starts with [/mdc-] and the
    file name has no [/], the directory computed by getFilePathName's first
    three statements is [dir], the path from the component's package
    directory to the file's directory. *)
Theorem directoryPath_of_package_file (root rest file : jsstring) :
  includes (root ++ lit "/mdc") (lit "/mdc-") = false ->
  includes file (lit "/") = false ->
  directoryPath (root ++ lit "/" ++ (lit "mdc-" ++ rest) ++ lit "/" ++ file)
  = lit "mdc-" ++ rest.
Proof.
  intros Hroot Hfile. unfold directoryPath.
  set (dir := lit "mdc-" ++ rest).
  set (filePath := root ++ lit "/" ++ dir ++ lit "/" ++ file).
  assert (Ei : indexOf filePath (lit "/mdc-") = Z.of_nat (length root)).
  { unfold indexOf, filePath. rewrite indexOf_from_skip.
    - now rewrite indexOf_from_here by reflexivity.
    - intros k Hk.
      destruct (startsWith (lit "/mdc-")
                  (skipn k (root ++ lit "/" ++ dir ++ lit "/" ++ file)))
        eqn:E; [|reflexivity].
      exfalso.
      replace (root ++ lit "/" ++ dir ++ lit "/" ++ file)
        with ((root ++ lit "/mdc") ++ (lit "-" ++ rest ++ lit "/" ++ file))
        in E by (unfold dir; rewrite <- !app_assoc; reflexivity).
      rewrite skipn_app in E.
      replace (k - length (root ++ lit "/mdc")) with 0 in E
        by (rewrite length_app; lia).
      cbn [skipn] in E. apply startsWith_within in E.
      + unfold includes, indexOf in Hroot. apply Z.leb_gt in Hroot.
        rewrite (indexOf_from_none _ _ 0%Z (Z.le_refl 0) Hroot k) in E.
        discriminate E.
      + rewrite length_skipn, length_app.
        change (length (lit "/mdc-")) with 5.
        change (length (lit "/mdc")) with 4. lia. }
  assert (El : lastIndexOf filePath (lit "/")
               = Z.of_nat (length (root ++ lit "/") + length dir)).
  { unfold lastIndexOf, filePath.
    replace (root ++ lit "/" ++ dir ++ lit "/" ++ file)
      with ((root ++ lit "/" ++ dir) ++ (lit "/" ++ file))
      by (now rewrite <- !app_assoc).
    assert (H : lastIndexOf_from (lit "/") (lit "/" ++ file)
                  (0 + Z.of_nat (length (root ++ lit "/" ++ dir)))
                = (0 + Z.of_nat (length (root ++ lit "/" ++ dir)))%Z).
    { apply lastIndexOf_from_here; [reflexivity|].
      unfold includes, indexOf in Hfile. apply Z.leb_gt in Hfile.
      exact (indexOf_from_none _ _ 0%Z (Z.le_refl 0) Hfile). }
    rewrite lastIndexOf_from_later; rewrite H; [|lia].
    rewrite !length_app. lia. }
  rewrite Ei, El.
  replace (Z.of_nat (length root) + 1)%Z
    with (Z.of_nat (length (root ++ lit "/")))
    by (rewrite length_app; cbn [length lit]; cbn; lia).
  unfold filePath.
  replace (root ++ lit "/" ++ dir ++ lit "/" ++ file)
    with ((root ++ lit "/") ++ dir ++ (lit "/" ++ file))
    by (now rewrite <- !app_assoc).
  apply substring_middle.
Qed.

Lemma directoryPath_of_package_file_witness :
  directoryPath
    (lit "/repo/packages" ++ lit "/"
       ++ (lit "mdc-" ++ lit "textfield/helper-text") ++ lit "/"
       ++ lit "foundation.ts")
  = lit "mdc-" ++ lit "textfield/helper-text".
Proof.
  apply directoryPath_of_package_file; reflexivity.
Defined.


(** ** The Aggregator *)

Lemma jsstring_eqb_eq (a b : jsstring) : jsstring_eqb a b = true <-> a = b.
Proof.
  unfold jsstring_eqb. destruct (list_eq_dec N.eq_dec a b);
    split; intros H; (assumption || discriminate || reflexivity || contradiction).
Qed.

Lemma jsstring_eqb_refl (a : jsstring) : jsstring_eqb a a = true.
Proof. now apply jsstring_eqb_eq. Qed.

Lemma jsstring_eqb_neq (a b : jsstring) : jsstring_eqb a b = false <-> a <> b.
Proof.
  unfold jsstring_eqb. destruct (list_eq_dec N.eq_dec a b);
    split; intros H; (assumption || discriminate || reflexivity || contradiction).
Qed.

Lemma groupOf_add (buffer : MarkdownBuffer) (key : jsstring)
    (moduleMarkdown : ModuleMarkdown) (key' : jsstring) :
  groupOf (addToMarkdownBuffer buffer key moduleMarkdown) key'
  = if jsstring_eqb key key'
    then groupOf buffer key' ++ [moduleMarkdown]
    else groupOf buffer key'.
Proof.
  unfold groupOf.
  induction buffer as [|[k l] buffer IH]; cbn [addToMarkdownBuffer lookup].
  - destruct (jsstring_eqb key key'); reflexivity.
  - destruct (jsstring_eqb k key) eqn:E; cbn [lookup].
    + apply jsstring_eqb_eq in E. subst k.
      destruct (jsstring_eqb key key'); reflexivity.
    + destruct (jsstring_eqb k key') eqn:E'; [|exact IH].
      apply jsstring_eqb_eq in E'. subst k.
      destruct (jsstring_eqb key key') eqn:E2; [|reflexivity].
      apply jsstring_eqb_eq in E2. subst key'.
      now rewrite jsstring_eqb_refl in E.
Qed.

(** X4.  After addToMarkdownBuffer the list under the key is the list that
    was there (none counts as empty) with the new record at its end, the
    key is present, and the list under every other key is what it was. *)
Theorem addToMarkdownBuffer_lookup (buffer : MarkdownBuffer)
    (key : jsstring) (moduleMarkdown : ModuleMarkdown) :
  lookup (addToMarkdownBuffer buffer key moduleMarkdown) key
  = Some (groupOf buffer key ++ [moduleMarkdown])
  /\ forall key', key' <> key ->
       lookup (addToMarkdownBuffer buffer key moduleMarkdown) key'
       = lookup buffer key'.
Proof.
  split.
  - unfold groupOf.
    induction buffer as [|[k l] buffer IH]; cbn [addToMarkdownBuffer lookup].
    + now rewrite jsstring_eqb_refl.
    + destruct (jsstring_eqb k key) eqn:E; cbn [lookup]; rewrite E;
        [reflexivity | exact IH].
  - intros key' Hne.
    induction buffer as [|[k l] buffer IH]; cbn [addToMarkdownBuffer lookup].
    + destruct (jsstring_eqb key key') eqn:E; [|reflexivity].
      apply jsstring_eqb_eq in E. congruence.
    + destruct (jsstring_eqb k key) eqn:E; cbn [lookup].
      * apply jsstring_eqb_eq in E. subst k.
        destruct (jsstring_eqb key key') eqn:E'; [|reflexivity].
        apply jsstring_eqb_eq in E'. congruence.
      * destruct (jsstring_eqb k key'); [reflexivity | exact IH].
Qed.

Lemma addToMarkdownBuffer_keys_eq (buffer : MarkdownBuffer)
    (key : jsstring) (moduleMarkdown : ModuleMarkdown) :
  map fst (addToMarkdownBuffer buffer key moduleMarkdown)
  = if existsb (fun k => jsstring_eqb k key) (map fst buffer)
    then map fst buffer
    else map fst buffer ++ [key].
Proof.
  induction buffer as [|[k l] buffer IH];
    cbn [addToMarkdownBuffer map fst existsb]; [reflexivity|].
  destruct (jsstring_eqb k key) eqn:E; cbn [map fst orb]; [reflexivity|].
  rewrite IH.
  destruct (existsb (fun k0 => jsstring_eqb k0 key) (map fst buffer));
    reflexivity.
Qed.

(** X5.  For a key that is not the name of a property that a plain object
    inherits: addToMarkdownBuffer leaves the keys of the buffer and their
    order as they are when the key is already there; in any case the keys
    afterwards are the old keys and the key, and no key comes to occur
    twice.  (Under an inherited name the source finds the inherited value
    and throws.) *)
Theorem addToMarkdownBuffer_keys (buffer : MarkdownBuffer)
    (key : jsstring) (moduleMarkdown : ModuleMarkdown) :
  inheritedName key = false ->
  (In key (map fst buffer) ->
   map fst (addToMarkdownBuffer buffer key moduleMarkdown) = map fst buffer)
  /\ (forall k,
        In k (map fst (addToMarkdownBuffer buffer key moduleMarkdown))
        <-> In k (map fst buffer) \/ k = key)
  /\ (NoDup (map fst buffer) ->
      NoDup (map fst (addToMarkdownBuffer buffer key moduleMarkdown))).
Proof.
  intros _. rewrite addToMarkdownBuffer_keys_eq.
  destruct (existsb (fun k => jsstring_eqb k key) (map fst buffer)) eqn:E.
  - apply existsb_exists in E. destruct E as [k [Hk E]].
    apply jsstring_eqb_eq in E. subst k.
    repeat split; trivial.
    + intros H. now left.
    + intros [H| ->]; assumption.
  - assert (Hn : ~ In key (map fst buffer)).
    { intros Hin.
      assert (X : existsb (fun k => jsstring_eqb k key) (map fst buffer)
                  = true).
      { apply existsb_exists. exists key. split; [exact Hin|].
        apply jsstring_eqb_refl. }
      congruence. }
    repeat split.
    + intros H. contradiction.
    + intros H. apply in_app_or in H. destruct H as [H|[<-|[]]]; auto.
    + intros [H| ->]; apply in_or_app; [now left | right; now left].
    + intros Hnd. apply NoDup_app; repeat split.
      * exact Hnd.
      * constructor; [intros []|constructor].
      * intros x Hx [<-|[]]. contradiction.
Qed.

Lemma addToMarkdownBuffer_keys_witness :
  map fst (addToMarkdownBuffer
             [(lit "mdc-drawer", [moduleNamed (lit "MDCDrawer")])]
             (lit "mdc-drawer") (moduleNamed (lit "MDCDrawerAdapter")))
  = [lit "mdc-drawer"].
Proof.
  apply (proj1 (addToMarkdownBuffer_keys
                  [(lit "mdc-drawer", [moduleNamed (lit "MDCDrawer")])]
                  (lit "mdc-drawer") (moduleNamed (lit "MDCDrawerAdapter"))
                  eq_refl)).
  left. reflexivity.
Defined.


(** ** Errors of the Transformer *)

Lemma filterM_throw {A : Type} (p : A -> result bool) (l : list A) :
  (forall x e, p x = Throw e -> e = TypeError) ->
  (exists x, In x l /\ exists e, p x = Throw e) ->
  filterM p l = Throw TypeError.
Proof.
  intros Hp. induction l as [|x l IH]; intros [x0 [Hin [e He]]];
    [contradiction|].
  cbn [filterM]. destruct (p x) as [b|e'] eqn:Ex; cbn [bind].
  - rewrite IH; [reflexivity|].
    destruct Hin as [<-|Hin]; [congruence|]. exists x0. eauto.
  - now rewrite (Hp x e' Ex).
Qed.

Lemma mapM_Ok {A B : Type} (f : A -> result B) (l : list A) :
  forall out, mapM f l = Ok out -> Forall2 (fun x y => f x = Ok y) l out.
Proof.
  induction l as [|x l IH]; intros out H; cbn [mapM] in H.
  - injection H as <-. constructor.
  - destruct (f x) as [y|e] eqn:Ex; cbn [bind] in H; [|discriminate].
    destruct (mapM f l) as [rest|e] eqn:El; cbn [bind] in H; [|discriminate].
    injection H as <-. constructor; [exact Ex | now apply IH].
Qed.

Lemma getFilePathName_Ok (readmeExists : jsstring -> bool) (stack : nat)
    (filePath : jsstring) :
  exists dir,
    fst (getFilePathName readmeExists (S stack) filePath) = Ok dir.
Proof.
  cbn [getFilePathName].
  destruct (readmeExists (directoryPath filePath)); [eexists; reflexivity|].
  destruct (getFilePathName readmeExists stack (directoryPath filePath))
    as [[found|err] log]; eexists; reflexivity.
Qed.

Lemma noSignature_false (method : Method) :
  noSignature method = false <-> signatures method <> [].
Proof.
  unfold noSignature. destruct (signatures method); split; intros H;
    (discriminate || congruence || reflexivity).
Qed.

(** What getDocumentationForMethods does on a module of [docData]. *)
Lemma getDocumentationForMethods_outcome (data : DocData)
    (esmodule : jsstring) (m : ModuleData) :
  lookup data esmodule = Some m ->
  if existsb noSignature (methodsOf m)
  then getDocumentationForMethods (Some data) esmodule = Throw TypeError
  else exists out, getDocumentationForMethods (Some data) esmodule = Ok out.
Proof.
  intros Hm. unfold getDocumentationForMethods, methodsOf.
  rewrite Hm. cbn [deref bind].
  destruct (doc_methods m) as [ms|]; [|cbn [existsb]; eexists; reflexivity].
  destruct (existsb noSignature ms) eqn:E.
  - rewrite filterM_throw; [reflexivity | |].
    + intros x e. unfold signature0.
      destruct (nth_error (signatures x) 0); cbn [deref bind]; congruence.
    + apply existsb_exists in E. destruct E as [x [Hin Hx]].
      exists x. split; [exact Hin|]. exists TypeError.
      unfold noSignature in Hx. unfold signature0.
      destruct (signatures x); [reflexivity | discriminate].
  - rewrite filterM_total with (q := documentedPublicMethod).
    2:{ intros method Hin.
        assert (Hs : noSignature method = false).
        { destruct (noSignature method) eqn:Hn; [|reflexivity].
          assert (X : existsb noSignature ms = true)
            by (apply existsb_exists; eauto).
          congruence. }
        unfold noSignature in Hs.
        unfold signature0, documentedPublicMethod, methodDocumentation,
          shouldIgnoreDocumentationItem, isDocumented.
        destruct (signatures method) as [|s ss]; [discriminate|].
        cbn. destruct (sig_documentation s);
          destruct (isProtected (method_flags method));
          destruct (isStatic (method_flags method)); reflexivity. }
    cbn [bind].
    destruct (mapM_total
                (fun method =>
                   s <- signature0 method ;;
                   d <- deref (sig_documentation s) ;;
                   Ok {| method_documentation := cleanComment (contentsRaw d);
                         methodSignature := method_name method ++ sig_type s |})
                (fun _ _ => True)
                (filter documentedPublicMethod ms)) as [out [Hout _]].
    + intros method Hin. apply filter_In in Hin. destruct Hin as [_ Hk].
      unfold documentedPublicMethod, methodDocumentation, isDocumented in Hk.
      unfold signature0.
      destruct (signatures method) as [|s ss]; [discriminate|].
      destruct (sig_documentation s) as [d|] eqn:Hd; [|discriminate].
      cbn. rewrite Hd. cbn. eexists. split; [reflexivity | exact I].
    + exists out. exact Hout.
Qed.

Lemma getDocumentationProperties_Ok (data : DocData) (esmodule : jsstring)
    (m : ModuleData) :
  lookup data esmodule = Some m ->
  exists out, getDocumentationProperties (Some data) esmodule = Ok out.
Proof.
  intros Hm. unfold getDocumentationProperties. rewrite Hm.
  cbn [deref bind].
  destruct (doc_properties m) as [ps|]; [|eexists; reflexivity].
  destruct (mapM_total
              (fun property =>
                 d <- deref (property_documentation property) ;;
                 Ok {| prop_documentation := cleanComment (contentsRaw d);
                       name := property_name property;
                       type := property_type property |})
              (fun _ _ => True)
              (filter (fun property =>
                         shouldIgnoreDocumentationItem
                           (property_flags property)
                           (property_documentation property)) ps))
    as [out [Hout _]].
  - intros p Hin. apply filter_In in Hin. destruct Hin as [_ Hk].
    unfold shouldIgnoreDocumentationItem in Hk.
    destruct (property_documentation p) as [d|].
    + cbn. eexists. split; [reflexivity | exact I].
    + rewrite andb_false_r in Hk. discriminate.
  - exists out. exact Hout.
Qed.

Lemma getDocumentationForModule_Ok (data : DocData) (esmodule : jsstring)
    (m : ModuleData) :
  lookup data esmodule = Some m ->
  exists doc, getDocumentationForModule (Some data) esmodule = Ok doc.
Proof.
  intros Hm. unfold getDocumentationForModule, getDocumentationForEvents.
  cbn [deref bind]. rewrite Hm. cbn [deref bind].
  destruct (documentation m) as [d|]; [|eexists; reflexivity].
  destruct (contents d) as [cs|] eqn:Ec; [|eexists; reflexivity].
  cbn [deref bind]. rewrite Ec. cbn [deref bind]. eexists. reflexivity.
Qed.

(** X6.  For a module of [docData], getDocumentationForMethods throws a
    [TypeError] exactly when one of the module's methods has no signature,
    whatever that method's flags are, and returns a list otherwise;
    getDocumentationProperties always returns a list. *)
Theorem method_without_signature_throws (data : DocData)
    (esmodule : jsstring) (m : ModuleData) :
  lookup data esmodule = Some m ->
  (getDocumentationForMethods (Some data) esmodule = Throw TypeError
   <-> exists method, In method (methodsOf m) /\ signatures method = [])
  /\ ((forall method, In method (methodsOf m) -> signatures method <> []) ->
      exists out, getDocumentationForMethods (Some data) esmodule = Ok out)
  /\ exists out, getDocumentationProperties (Some data) esmodule = Ok out.
Proof.
  intros Hm.
  pose proof (getDocumentationForMethods_outcome data esmodule m Hm) as O.
  destruct (existsb noSignature (methodsOf m)) eqn:E.
  - apply existsb_exists in E. destruct E as [x [Hin Hx]].
    assert (Hs : signatures x = []).
    { unfold noSignature in Hx. now destruct (signatures x). }
    repeat split.
    + intros _. eauto.
    + intros _. exact O.
    + intros H. exfalso. now apply (H x Hin).
    + now apply getDocumentationProperties_Ok with (m := m).
  - destruct O as [out O]. repeat split.
    + intros H. congruence.
    + intros [x [Hin Hs]].
      assert (X : existsb noSignature (methodsOf m) = true).
      { apply existsb_exists. exists x. split; [exact Hin|].
        unfold noSignature. now rewrite Hs. }
      congruence.
    + intros _. eauto.
    + now apply getDocumentationProperties_Ok with (m := m).
Qed.

(** ** One module, then all of them *)

Lemma generateDocsForModule_outcome (readmeExists : jsstring -> bool)
    (stack : nat) (data : DocData) (buffer : MarkdownBuffer)
    (esmodule : jsstring) :
  if failingModule data esmodule
  then generateDocsForModule readmeExists (S stack) (Some data) buffer
         esmodule = Throw TypeError
  else exists m dir,
      lookup data esmodule = Some m
      /\ fst (getFilePathName readmeExists (S stack) (fileName m)) = Ok dir
      /\ ((isTypeAlias m = true
           /\ generateDocsForModule readmeExists (S stack) (Some data) buffer
                esmodule = Ok buffer)
          \/ (isTypeAlias m = false
              /\ exists record,
                  recordOf (Some data) dir esmodule record
                  /\ generateDocsForModule readmeExists (S stack) (Some data)
                       buffer esmodule
                     = Ok (addToMarkdownBuffer buffer dir record))).
Proof.
  unfold failingModule, generateDocsForModule. cbn [deref bind].
  destruct (lookup data esmodule) as [m|] eqn:Hm; [|reflexivity].
  cbn [deref bind].
  destruct (getFilePathName_Ok readmeExists stack (fileName m)) as [dir Hd].
  rewrite Hd. cbn [bind]. fold (isTypeAlias m).
  destruct (isTypeAlias m) eqn:Ha; cbn [negb andb].
  - exists m, dir. repeat split; try assumption. left. auto.
  - destruct (getDocumentationForModule_Ok data esmodule m Hm) as [doc Hdoc].
    destruct (getDocumentationProperties_Ok data esmodule m Hm) as [ps Hps].
    pose proof (getDocumentationForMethods_outcome data esmodule m Hm) as O.
    rewrite Hdoc. cbn [bind].
    destruct (existsb noSignature (methodsOf m)).
    + now rewrite O.
    + destruct O as [ms Hms]. rewrite Hms, Hps. cbn [bind].
      exists m, dir. repeat split; try assumption. right. split; [exact Ha|].
      eexists. split; [|reflexivity].
      unfold recordOf. cbn. repeat split; try assumption.
      exists doc. auto.
Qed.

(** X7.  generateDocsForModule leaves the buffer as it is for a module whose
    kind is "type alias", also when the module's methods have no
    signatures. *)
Theorem generateDocsForModule_skips_type_alias
    (readmeExists : jsstring -> bool) (stack : nat) (data : DocData)
    (buffer : MarkdownBuffer) (esmodule : jsstring) (m : ModuleData) :
  lookup data esmodule = Some m ->
  kind m = lit "type alias" ->
  generateDocsForModule readmeExists (S stack) (Some data) buffer esmodule
  = Ok buffer.
Proof.
  intros Hm Hk.
  pose proof (generateDocsForModule_outcome readmeExists stack data buffer
                esmodule) as O.
  assert (Ha : isTypeAlias m = true)
    by (unfold isTypeAlias; rewrite Hk; apply jsstring_eqb_refl).
  unfold failingModule in O. rewrite Hm, Ha in O. cbn [negb andb] in O.
  destruct O as [m' [dir [Hm' [_ [[_ H]|[Ha' _]]]]]]; [exact H|].
  congruence.
Qed.

Lemma generateDocsForModules_outcome (readmeExists : jsstring -> bool)
    (stack : nat) (data : DocData) (modules : list jsstring) :
  forall buffer,
    if existsb (failingModule data) modules
    then generateDocsForModules readmeExists (S stack) (Some data) buffer
           modules = Throw TypeError
    else exists buffer',
        generateDocsForModules readmeExists (S stack) (Some data) buffer
          modules = Ok buffer'.
Proof.
  induction modules as [|e modules IH]; intros buffer;
    cbn [existsb generateDocsForModules]; [eexists; reflexivity|].
  pose proof (generateDocsForModule_outcome readmeExists stack data buffer e)
    as O.
  destruct (failingModule data e); cbn [orb].
  - now rewrite O.
  - destruct O as [m [dir [_ [_ [[_ H]|[_ [record [_ H]]]]]]]];
      rewrite H; cbn [bind]; apply IH.
Qed.

Lemma lookup_keys {V : Type} (obj : list (jsstring * V)) (key : jsstring) :
  In key (map fst obj) <-> exists v, lookup obj key = Some v.
Proof.
  induction obj as [|[k v] obj IH]; cbn [map fst In lookup].
  - split; [intros [] | intros [v H]; discriminate].
  - destruct (jsstring_eqb k key) eqn:E.
    + apply jsstring_eqb_eq in E. split; [eauto | now left].
    + apply jsstring_eqb_neq in E. rewrite <- IH. tauto.
Qed.

(** X8.  In a run where no module's directory resolves to the name of a
    property that a plain object inherits, and with room on the stack for
    at least one frame: generateDocs throws a [TypeError], before any file
    is read or written, exactly when some module that is not a type alias
    has a method without signatures; otherwise it returns normally.  (Under
    an inherited name addToMarkdownBuffer throws as well.) *)
Theorem generateDocs_throws_iff_method_without_signature
    (readmeExists : jsstring -> bool)
    (array_sort : (ModuleMarkdown -> ModuleMarkdown -> Z) ->
                  list ModuleMarkdown -> list ModuleMarkdown)
    (templateFunction : list ModuleMarkdown -> jsstring)
    (readFile : jsstring -> option jsstring)
    (stack : nat) (typescript : DocData) :
  (forall esmodule m dir,
     lookup typescript esmodule = Some m ->
     fst (getFilePathName readmeExists (S stack) (fileName m)) = Ok dir ->
     inheritedName dir = false) ->
  (generateDocs readmeExists array_sort templateFunction readFile (S stack)
     typescript = Throw TypeError
   <-> exists esmodule m method,
         lookup typescript esmodule = Some m
         /\ kind m <> lit "type alias"
         /\ In method (methodsOf m)
         /\ signatures method = [])
  /\ (generateDocs readmeExists array_sort templateFunction readFile (S stack)
        typescript = Throw TypeError
      \/ exists trace,
           generateDocs readmeExists array_sort templateFunction readFile
             (S stack) typescript = Ok trace).
Proof.
  intros _. unfold generateDocs.
  pose proof (generateDocsForModules_outcome readmeExists stack typescript
                (map fst typescript) []) as O.
  destruct (existsb (failingModule typescript) (map fst typescript)) eqn:E.
  - rewrite O. cbn [bind]. split; [|now left].
    split; [intros _ | reflexivity].
    apply existsb_exists in E. destruct E as [e [Hin He]].
    apply lookup_keys in Hin. destruct Hin as [m Hm].
    unfold failingModule in He. rewrite Hm in He.
    apply andb_prop in He. destruct He as [Ha Hs].
    apply existsb_exists in Hs. destruct Hs as [method [Hmin Hn]].
    exists e, m, method. repeat split; try assumption.
    + intros Hk. unfold isTypeAlias in Ha. rewrite Hk in Ha.
      now rewrite jsstring_eqb_refl in Ha.
    + unfold noSignature in Hn. now destruct (signatures method).
  - destruct O as [buffer O]. rewrite O. cbn [bind].
    split; [|right; eexists; reflexivity].
    split; [discriminate|].
    intros [e [m [method [Hm [Hk [Hin Hs]]]]]]. exfalso.
    assert (X : existsb (failingModule typescript) (map fst typescript)
                = true).
    { apply existsb_exists. exists e. split.
      - apply lookup_keys. eauto.
      - unfold failingModule. rewrite Hm. apply andb_true_intro. split.
        + apply negb_true_iff. apply jsstring_eqb_neq. exact Hk.
        + apply existsb_exists. exists method. split; [exact Hin|].
          unfold noSignature. now rewrite Hs. }
    congruence.
Qed.

Lemma generateDocs_throws_iff_method_without_signature_witness :
  generateDocs drawerReadmeOnly (@insertionSort ModuleMarkdown)
    (fun _ => []) (fun _ => None) 1
    [(lit "MDCDrawer", classWithUnsignedMethod)]
  = Throw TypeError.
Proof.
  apply (generateDocs_throws_iff_method_without_signature
           drawerReadmeOnly (@insertionSort ModuleMarkdown)
           (fun _ => []) (fun _ => None) 0
           [(lit "MDCDrawer", classWithUnsignedMethod)]).
  - intros esmodule m dir Hm Hd. cbn [lookup] in Hm.
    destruct (jsstring_eqb (lit "MDCDrawer") esmodule); [|discriminate].
    injection Hm as <-. vm_compute in Hd. injection Hd as <-. reflexivity.
  - exists (lit "MDCDrawer"), classWithUnsignedMethod, unsignedMethod.
    split; [reflexivity|]. split; [discriminate|].
    split; [left; reflexivity | reflexivity].
Defined.

(** X9.  When generateDocs's loop over the modules returns, the list it has
    added under each key of the buffer holds, in the order of the module
    names, one record for each module that is not a type alias and whose
    directory resolves to that key: the record carries the module's name,
    the key, and what the three extraction functions return for the
    module. *)
Theorem generateDocsForModules_groups (readmeExists : jsstring -> bool)
    (stack : nat) (data : DocData) (modules : list jsstring) :
  forall buffer0 buffer,
    generateDocsForModules readmeExists (S stack) (Some data) buffer0 modules
    = Ok buffer ->
    forall key,
    exists added,
      groupOf buffer key = groupOf buffer0 key ++ added
      /\ Forall2 (recordOf (Some data) key)
           (filter (resolvesTo readmeExists (S stack) data key) modules)
           added.
Proof.
  induction modules as [|e modules IH]; intros buffer0 buffer H key;
    cbn [generateDocsForModules] in H.
  - injection H as <-. exists []. split; [now rewrite app_nil_r|constructor].
  - pose proof (generateDocsForModule_outcome readmeExists stack data buffer0
                  e) as O.
    destruct (failingModule data e); [rewrite O in H; discriminate|].
    destruct O as [m [dir [Hm [Hd C]]]].
    cbn [filter]. unfold resolvesTo at 1. rewrite Hm, Hd.
    destruct C as [[Ha E]|[Ha [record [R E]]]]; rewrite E in H;
      cbn [bind] in H; rewrite Ha; cbn [negb andb].
    + apply (IH buffer0 buffer H key).
    + destruct (IH _ _ H key) as [added [G F]].
      rewrite groupOf_add in G.
      destruct (jsstring_eqb dir key) eqn:Ek.
      * apply jsstring_eqb_eq in Ek. subst dir.
        exists (record :: added). split.
        -- rewrite G, <- app_assoc. reflexivity.
        -- constructor; assumption.
      * exists added. split; assumption.
Qed.

(** ** What the records hold *)

Lemma cleanComment_no_newline (comment : jsstring) :
  ~ In NL (cleanComment comment).
Proof.
  unfold cleanComment, replace_global. rewrite replace_newlines_map.
  intros H. apply in_map_iff in H. destruct H as [c [H _]].
  now apply newlineToSpace_not_NL in H.
Qed.

(** X10.  No entry that getDocumentationForMethods or
    getDocumentationProperties returns has a line feed in its
    documentation. *)
Theorem extracted_documentation_has_no_newline (docData : option DocData)
    (esmodule : jsstring) :
  (forall out row,
      getDocumentationForMethods docData esmodule = Ok out ->
      In row out -> ~ In NL (method_documentation row))
  /\ (forall out row,
         getDocumentationProperties docData esmodule = Ok out ->
         In row out -> ~ In NL (prop_documentation row)).
Proof.
  split; intros out row H Hin.
  - unfold getDocumentationForMethods in H.
    destruct docData as [data|]; [|injection H as <-; contradiction].
    destruct (lookup data esmodule) as [m|]; [|discriminate].
    cbn [deref bind] in H.
    destruct (doc_methods m) as [ms|]; [|injection H as <-; contradiction].
    destruct (filterM _ ms) as [kept|]; [|discriminate]. cbn [bind] in H.
    apply mapM_Ok in H.
    destruct (Forall2_In_r _ _ _ _ H Hin) as [method [_ E]].
    destruct (signature0 method) as [s|]; [|discriminate]. cbn [bind] in E.
    destruct (deref (sig_documentation s)) as [d|]; [|discriminate].
    cbn [bind] in E. injection E as <-. cbn [method_documentation].
    apply cleanComment_no_newline.
  - unfold getDocumentationProperties in H.
    destruct docData as [data|]; [|injection H as <-; contradiction].
    destruct (lookup data esmodule) as [m|]; [|discriminate].
    cbn [deref bind] in H.
    destruct (doc_properties m) as [ps|]; [|injection H as <-; contradiction].
    apply mapM_Ok in H.
    destruct (Forall2_In_r _ _ _ _ H Hin) as [p [_ E]].
    destruct (deref (property_documentation p)) as [d|]; [|discriminate].
    cbn [bind] in E. injection E as <-. cbn [prop_documentation].
    apply cleanComment_no_newline.
Qed.

Lemma isEventsTag_filter (content : DocumentationContent) :
  match tag content with
  | Some t => negb (jsstring_eqb t []) && jsstring_eqb t (lit "events")
  | None => false
  end = isEventsTag content.
Proof.
  unfold isEventsTag. destruct (tag content) as [t|]; [|reflexivity].
  destruct (jsstring_eqb t (lit "events")) eqn:E;
    [|now rewrite andb_false_r].
  apply jsstring_eqb_eq in E. subst t. reflexivity.
Qed.

(** X11.  For a module whose documentation has contents,
    getDocumentationForModule returns, in order, one event for each content
    tagged "events", with the content's value as it is (line feeds
    included); contents with another tag or none give no event. *)
Theorem events_are_the_tagged_contents (data : DocData)
    (esmodule : jsstring) (m : ModuleData) (d : Documentation)
    (cs : list DocumentationContent) :
  lookup data esmodule = Some m ->
  documentation m = Some d ->
  contents d = Some cs ->
  getDocumentationForModule (Some data) esmodule
  = Ok {| doc_events :=
            map (fun content => {| event_documentation := value content |})
                (filter isEventsTag cs) |}.
Proof.
  intros Hm Hd Hc.
  unfold getDocumentationForModule, getDocumentationForEvents.
  cbn [deref bind]. rewrite Hm. cbn [deref bind]. rewrite Hd, Hc.
  cbn [deref bind]. rewrite Hc. cbn [deref bind].
  do 3 f_equal. apply filter_ext. intros c. apply isEventsTag_filter.
Qed.


(** ** The comparator within a tier *)

Lemma str_lt_total (a : jsstring) :
  forall b, a <> b -> str_lt a b = negb (str_lt b a).
Proof.
  induction a as [|x a IH]; intros [|y b] H; try reflexivity;
    [contradiction|].
  cbn [str_lt].
  destruct (N.compare_spec x y) as [E|L|G].
  - subst y. rewrite N.ltb_irrefl, N.eqb_refl. cbn [orb andb].
    apply IH. congruence.
  - rewrite (proj2 (N.ltb_lt x y) L).
    assert (Hy : (y <? x)%N = false) by (apply N.ltb_ge; lia).
    assert (He : (y =? x)%N = false) by (apply N.eqb_neq; lia).
    now rewrite Hy, He.
  - rewrite (proj2 (N.ltb_lt y x) G).
    assert (Hy : (x <? y)%N = false) by (apply N.ltb_ge; lia).
    assert (He : (x =? y)%N = false) by (apply N.eqb_neq; lia).
    now rewrite Hy, He.
Qed.

Lemma str_lt_trans (a : jsstring) :
  forall b c, str_lt a b = true -> str_lt b c = true -> str_lt a c = true.
Proof.
  induction a as [|x a IH]; intros [|y b] [|z c] H1 H2;
    try discriminate; try reflexivity.
  cbn [str_lt] in *.
  apply orb_prop in H1. apply orb_prop in H2. apply orb_true_intro.
  destruct H1 as [H1|H1], H2 as [H2|H2].
  - left. apply N.ltb_lt in H1, H2. apply N.ltb_lt. lia.
  - apply andb_prop in H2. destruct H2 as [E _]. apply N.eqb_eq in E.
    subst z. now left.
  - apply andb_prop in H1. destruct H1 as [E _]. apply N.eqb_eq in E.
    subst y. now left.
  - apply andb_prop in H1. destruct H1 as [E1 L1].
    apply andb_prop in H2. destruct H2 as [E2 L2].
    apply N.eqb_eq in E1, E2. subst y z. right.
    rewrite N.eqb_refl. cbn [andb]. now apply (IH b c).
Qed.

Lemma sortByModuleType_alphabetize (a b : ModuleMarkdown) :
  sameTier a b = true ->
  sortByModuleType a b
  = (if str_lt (lowerName b) (lowerName a) then 1 else -1)%Z.
Proof.
  unfold sameTier, sortByModuleType, str_gt, lowerName.
  destruct (includes (toLowerCase (moduleName a)) FOUNDATION);
    destruct (includes (toLowerCase (moduleName b)) FOUNDATION);
    destruct (includes (toLowerCase (moduleName a)) ADAPTER);
    destruct (includes (toLowerCase (moduleName b)) ADAPTER);
    cbn; intros H; (discriminate H || reflexivity).
Qed.

Lemma sameTier_sym (a b : ModuleMarkdown) : sameTier a b = sameTier b a.
Proof.
  unfold sameTier.
  destruct (includes (lowerName a) FOUNDATION);
    destruct (includes (lowerName b) FOUNDATION);
    destruct (includes (lowerName a) ADAPTER);
    destruct (includes (lowerName b) ADAPTER); reflexivity.
Qed.

Lemma sameTier_trans (a b c : ModuleMarkdown) :
  sameTier a b = true -> sameTier b c = true -> sameTier a c = true.
Proof.
  unfold sameTier.
  destruct (includes (lowerName a) FOUNDATION);
    destruct (includes (lowerName b) FOUNDATION);
    destruct (includes (lowerName c) FOUNDATION);
    destruct (includes (lowerName a) ADAPTER);
    destruct (includes (lowerName b) ADAPTER);
    destruct (includes (lowerName c) ADAPTER);
    cbn; intros H1 H2; (discriminate || reflexivity).
Qed.

(** X12.  Among foundations, and among adapters that are not foundations,
    the comparator is the alphabetical order of the lowercase names: it
    answers 1 when the first name comes after the second and -1 otherwise,
    flips its sign when two modules with different lowercase names are
    swapped, and is transitive. *)
Theorem sortByModuleType_alphabetical_within_tier (a b : ModuleMarkdown) :
  sameTier a b = true ->
  (sortByModuleType a b = 1%Z
   <-> str_lt (lowerName b) (lowerName a) = true)
  /\ (sortByModuleType a b = 1%Z \/ sortByModuleType a b = (-1)%Z)
  /\ (lowerName a <> lowerName b ->
      sortByModuleType a b = (- sortByModuleType b a)%Z)
  /\ (forall c,
         sameTier b c = true ->
         sortByModuleType a b = 1%Z ->
         sortByModuleType b c = 1%Z ->
         sortByModuleType a c = 1%Z).
Proof.
  intros T.
  pose proof (sortByModuleType_alphabetize a b T) as E.
  assert (T' : sameTier b a = true) by now rewrite sameTier_sym.
  pose proof (sortByModuleType_alphabetize b a T') as E'.
  repeat split.
  - rewrite E. destruct (str_lt (lowerName b) (lowerName a));
      [reflexivity | discriminate].
  - rewrite E. now intros ->.
  - rewrite E. destruct (str_lt (lowerName b) (lowerName a)); auto.
  - intros Hne. rewrite E, E'.
    rewrite (str_lt_total (lowerName a) (lowerName b) Hne).
    destruct (str_lt (lowerName b) (lowerName a)); reflexivity.
  - intros c Tc H1 H2.
    rewrite (sortByModuleType_alphabetize b c Tc) in H2.
    rewrite (sortByModuleType_alphabetize a c (sameTier_trans a b c T Tc)).
    rewrite E in H1.
    destruct (str_lt (lowerName b) (lowerName a)) eqn:L1; [|discriminate].
    destruct (str_lt (lowerName c) (lowerName b)) eqn:L2; [|discriminate].
    now rewrite (str_lt_trans _ _ _ L2 L1).
Qed.

Lemma sortByModuleType_alphabetical_within_tier_witness :
  sortByModuleType FooAdapter BarAdapter = 1%Z
  /\ sortByModuleType FooAdapter BarAdapter
     = (- sortByModuleType BarAdapter FooAdapter)%Z.
Proof.
  destruct (sortByModuleType_alphabetical_within_tier FooAdapter BarAdapter)
    as [H1 [_ [H3 _]]]; [reflexivity|].
  split; [apply H1; reflexivity | apply H3; discriminate].
Defined.

(** ** Modules that reach the template *)

Lemma insertFromRight_keeps {A : Type} (comparefn : A -> A -> Z)
    (element : A) (l : list A) (x : A) :
  x = element \/ In x l -> In x (insertFromRight comparefn element l).
Proof.
  induction l as [|tmp l IH]; cbn [insertFromRight].
  - intros [->|[]]. now left.
  - destruct (comparefn tmp element >? 0)%Z.
    + intros [->|[->|H]]; [right; apply IH; now left | now left |].
      right. apply IH. now right.
    + intros [->|H]; [now left | now right].
Qed.

Lemma insertionSort_keeps {A : Type} (comparefn : A -> A -> Z) (a : list A)
    (x : A) :
  In x a -> In x (insertionSort comparefn a).
Proof.
  unfold insertionSort. intros H. apply -> in_rev.
  assert (G : forall acc,
             In x acc \/ In x a ->
             In x (fold_left (fun sortedRev element =>
                      insertFromRight comparefn element sortedRev) a acc)).
  { clear H. induction a as [|e a IH]; intros acc H; cbn [fold_left].
    - destruct H as [H|[]]. exact H.
    - apply IH. destruct H as [H|[->|H]].
      + left. apply insertFromRight_keeps. now right.
      + left. apply insertFromRight_keeps. now left.
      + now right. }
  apply G. now right.
Qed.

(** X13.  Whatever the engine's sort does with its input short of losing
    elements, every module of a directory group that has a method, a
    property or an event is in the list handed to the template. *)
Theorem modules_with_members_rendered
    (array_sort : (ModuleMarkdown -> ModuleMarkdown -> Z) ->
                  list ModuleMarkdown -> list ModuleMarkdown)
    (group : list ModuleMarkdown) (module : ModuleMarkdown) :
  (forall l x, In x l -> In x (array_sort sortByModuleType l)) ->
  In module group ->
  (methods module <> [] \/ properties module <> [] \/ events module <> []) ->
  In module (modulesForTemplate array_sort group).
Proof.
  intros Hsort Hin Hm. unfold modulesForTemplate.
  apply Hsort, filter_In. split; [exact Hin|].
  unfold hasMembers.
  destruct (methods module), (properties module), (events module);
    try reflexivity.
  destruct Hm as [H|[H|H]]; contradiction.
Qed.

Lemma modules_with_members_rendered_witness :
  In (moduleNamed (lit "MDCDrawer"))
     (modulesForTemplate (@insertionSort ModuleMarkdown)
        [emptyModule (lit "MDCDrawerAdapter");
         moduleNamed (lit "MDCDrawer")]).
Proof.
  apply modules_with_members_rendered.
  - intros l x. apply insertionSort_keeps.
  - right. left. reflexivity.
  - left. discriminate.
Defined.


(** ** The run of the Writer *)

Section WriterRun.

Variable array_sort :
  (ModuleMarkdown -> ModuleMarkdown -> Z) ->
  list ModuleMarkdown -> list ModuleMarkdown.
Variable templateFunction : list ModuleMarkdown -> jsstring.
Variable readFile : jsstring -> option jsstring.
Variable buffer : MarkdownBuffer.

Lemma loop_rewrites (keys : list jsstring) :
  (forall key, In key keys -> allowed key = true ->
               readFile (readmePath key) <> None
               /\ lookup buffer key <> None) ->
  forall more,
    generateMarkdownFileFromBuffer_loop array_sort templateFunction readFile
      buffer (keys ++ more)
    = flat_map (rewriteOf array_sort templateFunction readFile buffer)
               (filter allowed keys)
      ++ generateMarkdownFileFromBuffer_loop array_sort templateFunction
           readFile buffer more.
Proof.
  induction keys as [|key keys IH]; intros H more; [reflexivity|].
  cbn [app generateMarkdownFileFromBuffer_loop filter].
  cbn [allowList existsb]. rewrite orb_false_r. fold (allowed key).
  destruct (allowed key) eqn:Hk.
  - destruct (H key (or_introl eq_refl) Hk) as [Hr Hl].
    unfold insertMethodDescriptionTable.
    cbn [flat_map]. unfold rewriteOf at 1, readmeOf, groupOf.
    destruct (readFile (readmePath key)) as [readmeMd|]; [|contradiction].
    destruct (lookup buffer key) as [group|]; [|contradiction].
    cbn [app]. do 2 f_equal. apply IH.
    intros k Hin. apply H. now right.
  - apply IH. intros k Hin. apply H. now right.
Qed.

Lemma loop_unreadable (key : jsstring) (rest : list jsstring) :
  allowed key = true ->
  readFile (readmePath key) = None ->
  generateMarkdownFileFromBuffer_loop array_sort templateFunction readFile
    buffer (key :: rest)
  = [ReadFile (readmePath key)].
Proof.
  intros Hk Hr. cbn [generateMarkdownFileFromBuffer_loop].
  cbn [allowList existsb]. rewrite orb_false_r. fold (allowed key).
  rewrite Hk. unfold insertMethodDescriptionTable. now rewrite Hr.
Qed.

End WriterRun.

(** X14.  When the README of every key that the allow-list matches can be
    read, generateMarkdownFileFromBuffer reads and then writes the README of
    each such key once, in the order of the keys, and does nothing else;
    what it writes is the README read with the template's rendering of the
    key's non-empty modules spliced in. *)
Theorem generateMarkdownFileFromBuffer_rewrites_allowed
    (array_sort : (ModuleMarkdown -> ModuleMarkdown -> Z) ->
                  list ModuleMarkdown -> list ModuleMarkdown)
    (templateFunction : list ModuleMarkdown -> jsstring)
    (readFile : jsstring -> option jsstring)
    (buffer : MarkdownBuffer) :
  (forall key, In key (map fst buffer) -> allowed key = true ->
               readFile (readmePath key) <> None) ->
  generateMarkdownFileFromBuffer array_sort templateFunction readFile buffer
  = flat_map (rewriteOf array_sort templateFunction readFile buffer)
             (filter allowed (map fst buffer)).
Proof.
  intros H. unfold generateMarkdownFileFromBuffer.
  rewrite <- (app_nil_r (map fst buffer)) at 1.
  rewrite loop_rewrites.
  - cbn [generateMarkdownFileFromBuffer_loop]. now rewrite app_nil_r.
  - intros key Hin Hk. split; [now apply H|].
    apply lookup_keys in Hin. destruct Hin as [v Hv]. congruence.
Qed.

Lemma generateMarkdownFileFromBuffer_rewrites_allowed_witness :
  generateMarkdownFileFromBuffer (@insertionSort ModuleMarkdown)
    (fun _ => lit "| table |") (fun _ => Some placeholderReadme)
    [([], [moduleNamed (lit "Orphan")]);
     (lit "mdc-drawer", [moduleNamed (lit "MDCDrawer")])]
  = [ReadFile (lit "./packages/mdc-drawer/README.md");
     WriteFile (lit "./packages/mdc-drawer/README.md")
       (startReplacerToken ++ [NL] ++ lit "| table |" ++ [NL]
          ++ endReplacerToken)].
Proof.
  rewrite generateMarkdownFileFromBuffer_rewrites_allowed.
  - vm_compute. reflexivity.
  - intros key _ _. discriminate.
Defined.

(** X15.  When the README of a key that the allow-list matches cannot be
    read, generateMarkdownFileFromBuffer stops there: the keys before it
    are handled, the failed read is its last file operation, and no later
    key is read or written. *)
Theorem generateMarkdownFileFromBuffer_stops_at_unreadable
    (array_sort : (ModuleMarkdown -> ModuleMarkdown -> Z) ->
                  list ModuleMarkdown -> list ModuleMarkdown)
    (templateFunction : list ModuleMarkdown -> jsstring)
    (readFile : jsstring -> option jsstring)
    (buffer : MarkdownBuffer)
    (done : list jsstring) (key : jsstring) (rest : list jsstring) :
  map fst buffer = done ++ key :: rest ->
  (forall k, In k done -> allowed k = true ->
             readFile (readmePath k) <> None) ->
  allowed key = true ->
  readFile (readmePath key) = None ->
  generateMarkdownFileFromBuffer array_sort templateFunction readFile buffer
  = flat_map (rewriteOf array_sort templateFunction readFile buffer)
             (filter allowed done)
    ++ [ReadFile (readmePath key)].
Proof.
  intros Hkeys Hdone Hk Hr. unfold generateMarkdownFileFromBuffer.
  rewrite Hkeys. rewrite loop_rewrites.
  - now rewrite loop_unreadable.
  - intros k Hin Ha. split; [now apply Hdone|].
    assert (Hb : In k (map fst buffer))
      by (rewrite Hkeys; apply in_or_app; now left).
    apply lookup_keys in Hb. destruct Hb as [v Hv]. congruence.
Qed.

Lemma generateMarkdownFileFromBuffer_stops_at_unreadable_witness :
  generateMarkdownFileFromBuffer (@insertionSort ModuleMarkdown)
    (fun _ => lit "| table |") (fun _ => None)
    [(lit "mdc-drawer", [moduleNamed (lit "MDCDrawer")]);
     (lit "mdc-drawer/dismissible", [moduleNamed (lit "MDCDismissible")])]
  = [ReadFile (lit "./packages/mdc-drawer/README.md")].
Proof.
  apply (generateMarkdownFileFromBuffer_stops_at_unreadable
           (@insertionSort ModuleMarkdown) (fun _ => lit "| table |")
           (fun _ => None)
           [(lit "mdc-drawer", [moduleNamed (lit "MDCDrawer")]);
            (lit "mdc-drawer/dismissible",
             [moduleNamed (lit "MDCDismissible")])]
           [] (lit "mdc-drawer") [lit "mdc-drawer/dismissible"]).
  - reflexivity.
  - intros k [].
  - reflexivity.
  - reflexivity.
Defined.


(** ** More on the splice *)

Lemma skipn_length_app (a b : jsstring) : skipn (length a) (a ++ b) = b.
Proof.
  rewrite skipn_app, skipn_all, Nat.sub_diag. reflexivity.
Qed.

(** No match starts where no start sentinel begins. *)
Lemma no_match_before_first_start (template before rest : jsstring) :
  noStartWithin (length before) (before ++ rest) ->
  replace_loop sentinel_regex template 0 [] (before ++ rest)
  = before ++ replace_loop sentinel_regex template 0 before rest.
Proof.
  intros H. apply (replace_prefix_no_match sentinel_regex template before
                     rest []).
  intros s1 s2 E Hne. cbn [app].
  destruct (sentinel_regex s1 (s2 ++ rest)) as [m|] eqn:M; [|reflexivity].
  exfalso. apply re_Some in M. destruct M as [body [after [M _]]].
  assert (L : length s1 < length before).
  { rewrite E, length_app. destruct s2; [contradiction|]. cbn [length]. lia. }
  specialize (H (length s1) L).
  rewrite E, <- app_assoc, skipn_length_app, M in H.
  rewrite <- !app_assoc in H. now rewrite startsWith_app in H.
Qed.

(** X16.  The splice never changes the text in front of the first start
    sentinel, whatever the fragment: the README up to there is a prefix of
    the result. *)
Theorem insertedData_keeps_text_before_first_start
    (before rest apiMarkdownTable : jsstring) :
  noStartWithin (length before) (before ++ rest) ->
  exists tail,
    insertedData (before ++ rest) apiMarkdownTable = before ++ tail.
Proof.
  intros H. unfold insertedData, replace_global.
  rewrite no_match_before_first_start by exact H. eexists. reflexivity.
Qed.

Lemma insertedData_keeps_text_before_first_start_witness :
  exists tail,
    insertedData (lit "# " ++ placeholderReadme) (lit "$&")
    = lit "# " ++ tail.
Proof.
  apply insertedData_keeps_text_before_first_start.
  intros k Hk. cbn [length lit] in Hk.
  destruct k as [|[|k]]; [reflexivity | reflexivity |].
  cbn in Hk. lia.
Defined.

(** X17.  From the first start sentinel, at the start of a line and followed
    by a line feed, the splice replaces everything up to the last end
    sentinel when nothing but line feeds ends a line in between and the end
    sentinel is at the end of a line: start and end sentinels in between
    are replaced with the rest, and the text after the last end sentinel is
    kept.  This is for a fragment free of [$]. *)
Theorem insertedData_through_last_end_sentinel
    (before body after apiMarkdownTable : jsstring) :
  noStartWithin (length before)
    (before ++ startReplacerToken ++ [NL] ++ body ++ endReplacerToken
       ++ after) ->
  indices endReplacerToken (endReplacerToken ++ after) = [0] ->
  assert_line_start before = true ->
  assert_line_end after = true ->
  onlyLineFeeds body = true ->
  noPatterns apiMarkdownTable = true ->
  insertedData
    (before ++ startReplacerToken ++ [NL] ++ body ++ endReplacerToken ++ after)
    apiMarkdownTable
  = before ++ startReplacerToken ++ [NL] ++ apiMarkdownTable ++ [NL]
    ++ endReplacerToken ++ after.
Proof.
  intros Hstart Hend A Ha Hb Hf.
  unfold insertedData, replace_global. fold (replacement apiMarkdownTable).
  rewrite no_match_before_first_start by exact Hstart.
  assert (Once : forall x y,
             endReplacerToken ++ after = x ++ endReplacerToken ++ y ->
             x = []).
  { intros x y E.
    pose proof (indices_from_occurrence endReplacerToken x y 0) as I.
    rewrite <- E in I. fold (indices endReplacerToken
                               (endReplacerToken ++ after)) in I.
    rewrite Hend in I. destruct I as [I|[]]. cbn in I.
    destruct x; [reflexivity | discriminate]. }
  assert (K0 : star_then_end endReplacerToken (endReplacerToken ++ after)
               = Some 0).
  { destruct (star_then_end endReplacerToken (endReplacerToken ++ after))
      as [n|] eqn:K.
    - destruct (star_then_end_sound _ _ _ K) as [b [a' [E [Hl _]]]].
      apply Once in E. subst b. cbn in Hl. now subst n.
    - exfalso. revert K.
      apply (star_then_end_complete endReplacerToken [] after);
        [constructor | exact Ha]. }
  assert (K : star_then_end endReplacerToken
                (body ++ endReplacerToken ++ after) = Some (length body)).
  { rewrite star_then_end_prefix with (k := 0); [now rewrite Nat.add_0_r | |
      exact K0].
    now apply Forall_of_forallb. }
  replace (startReplacerToken ++ [NL] ++ body ++ endReplacerToken ++ after)
    with ((startReplacerToken ++ [NL]) ++ body ++ endReplacerToken ++ after)
    by (now rewrite <- !app_assoc).
  unfold sentinel_regex.
  rewrite loop_match;
    [ | now apply replacement_plain | exact startReplacerToken_one_line
      | discriminate | exact A | exact K ].
  rewrite replace_no_match.
  - unfold replacement. now rewrite <- !app_assoc.
  - intros a1 a2 E.
    destruct (sentinel_regex_of startReplacerToken endReplacerToken
                ((before ++ (startReplacerToken ++ [NL]) ++ body
                  ++ endReplacerToken) ++ a1) a2) as [m|] eqn:M;
      [|reflexivity].
    exfalso. apply re_Some in M. destruct M as [b' [a' [M _]]].
    assert (X : endReplacerToken ++ a1 ++ (startReplacerToken ++ [NL]) ++ b'
                = []).
    { apply (Once _ a'). rewrite E, M. now rewrite <- !app_assoc. }
    discriminate X.
Qed.

Lemma insertedData_through_last_end_sentinel_witness :
  insertedData
    ((lit "# Drawer" ++ [NL]) ++ startReplacerToken ++ [NL]
       ++ (lit "old" ++ [NL] ++ endReplacerToken ++ [NL]
           ++ startReplacerToken ++ [NL] ++ lit "older" ++ [NL])
       ++ endReplacerToken ++ ([NL] ++ lit "## Usage"))
    (lit "| open | Opens the drawer. |")
  = (lit "# Drawer" ++ [NL]) ++ startReplacerToken ++ [NL]
    ++ lit "| open | Opens the drawer. |" ++ [NL]
    ++ endReplacerToken ++ ([NL] ++ lit "## Usage").
Proof.
  apply (insertedData_through_last_end_sentinel
           (lit "# Drawer" ++ [NL])
           (lit "old" ++ [NL] ++ endReplacerToken ++ [NL]
              ++ startReplacerToken ++ [NL] ++ lit "older" ++ [NL])
           ([NL] ++ lit "## Usage") (lit "| open | Opens the drawer. |"));
    try reflexivity.
  intros k Hk.
  change (length (lit "# Drawer" ++ [NL])) with 9 in Hk.
  do 9 (destruct k as [|k]; [reflexivity|]). lia.
Defined.

(** ** More on cleanComment *)

(** X18.  cleanComment works code unit by code unit: the cleaned
    concatenation of two comments is the concatenation of the cleaned
    comments, cleaning twice is cleaning once, a comment without line feeds
    is returned as it is, and carriage returns stay where they are. *)
Theorem cleanComment_code_unit_wise (a b : jsstring) :
  cleanComment (a ++ b) = cleanComment a ++ cleanComment b
  /\ cleanComment (cleanComment a) = cleanComment a
  /\ cleanComment (filter (fun c => negb (c =? NL)%N) a)
     = filter (fun c => negb (c =? NL)%N) a
  /\ (forall i, nth_error a i = Some CR <->
                nth_error (cleanComment a) i = Some CR).
Proof.
  unfold cleanComment, replace_global. rewrite !replace_newlines_map.
  repeat split.
  - apply map_app.
  - rewrite map_map. apply map_ext. intros c. unfold newlineToSpace.
    destruct (c =? NL)%N eqn:E; [reflexivity | now rewrite E].
  - induction a as [|c a IH]; [reflexivity|]. cbn [filter].
    destruct (c =? NL)%N eqn:E; cbn [negb]; [exact IH|].
    cbn [map]. unfold newlineToSpace at 1. rewrite E. now rewrite IH.
  - intros H. rewrite nth_error_map, H. reflexivity.
  - rewrite nth_error_map. destruct (nth_error a i) as [c|]; [|discriminate].
    cbn. unfold newlineToSpace. destruct (c =? NL)%N eqn:E.
    + discriminate.
    + intros H. exact H.
Qed.


Lemma method_without_signature_throws_witness :
  getDocumentationForMethods
    (Some [(lit "MDCDrawer", classWithUnsignedMethod)]) (lit "MDCDrawer")
  = Throw TypeError.
Proof.
  destruct (method_without_signature_throws
              [(lit "MDCDrawer", classWithUnsignedMethod)] (lit "MDCDrawer")
              classWithUnsignedMethod eq_refl) as [[_ H] _].
  apply H. exists unsignedMethod. split; [now left | reflexivity].
Defined.

Lemma generateDocsForModule_skips_type_alias_witness :
  generateDocsForModule drawerReadmeOnly 1
    (Some [(lit "MDCDrawerType", aliasWithUnsignedMethod)])
    [(lit "mdc-drawer", [moduleNamed (lit "MDCDrawer")])]
    (lit "MDCDrawerType")
  = Ok [(lit "mdc-drawer", [moduleNamed (lit "MDCDrawer")])].
Proof.
  apply (generateDocsForModule_skips_type_alias drawerReadmeOnly 0
           [(lit "MDCDrawerType", aliasWithUnsignedMethod)]
           [(lit "mdc-drawer", [moduleNamed (lit "MDCDrawer")])]
           (lit "MDCDrawerType") aliasWithUnsignedMethod);
    reflexivity.
Defined.

Lemma generateDocsForModules_groups_witness :
  exists buffer added,
    generateDocsForModules drawerReadmeOnly 3
      (Some [(lit "MDCDrawerType", aliasWithUnsignedMethod);
             (lit "MDCDismissibleDrawerFoundation", drawerFoundation);
             (lit "MDCDrawer", classWithEvents)])
      []
      [lit "MDCDrawerType"; lit "MDCDismissibleDrawerFoundation";
       lit "MDCDrawer"]
    = Ok buffer
    /\ groupOf buffer (lit "mdc-drawer") = added
    /\ map moduleName added
       = [lit "MDCDismissibleDrawerFoundation"; lit "MDCDrawer"].
Proof.
  destruct (generateDocsForModules drawerReadmeOnly 3
              (Some [(lit "MDCDrawerType", aliasWithUnsignedMethod);
                     (lit "MDCDismissibleDrawerFoundation", drawerFoundation);
                     (lit "MDCDrawer", classWithEvents)])
              []
              [lit "MDCDrawerType"; lit "MDCDismissibleDrawerFoundation";
               lit "MDCDrawer"]) as [buffer|e] eqn:E;
    [|vm_compute in E; discriminate E].
  destruct (generateDocsForModules_groups drawerReadmeOnly 2 _ _ _ _ E
              (lit "mdc-drawer")) as [added [G F]].
  exists buffer, added. repeat split.
  - exact G.
  - assert (Ef : filter (resolvesTo drawerReadmeOnly 3
                           [(lit "MDCDrawerType", aliasWithUnsignedMethod);
                            (lit "MDCDismissibleDrawerFoundation",
                             drawerFoundation);
                            (lit "MDCDrawer", classWithEvents)]
                           (lit "mdc-drawer"))
                  [lit "MDCDrawerType"; lit "MDCDismissibleDrawerFoundation";
                   lit "MDCDrawer"]
                = [lit "MDCDismissibleDrawerFoundation"; lit "MDCDrawer"])
      by (vm_compute; reflexivity).
    rewrite Ef in F. clear - F.
    inversion F as [|e1 r1 l1 o1 R1 F1]; subst.
    inversion F1 as [|e2 r2 l2 o2 R2 F2]; subst.
    inversion F2; subst.
    destruct R1 as [N1 _]. destruct R2 as [N2 _].
    cbn [map]. now rewrite N1, N2.
Defined.

Lemma events_are_the_tagged_contents_witness :
  getDocumentationForModule (Some [(lit "MDCDrawer", classWithEvents)])
    (lit "MDCDrawer")
  = Ok {| doc_events :=
            [ {| event_documentation := Some (lit "MDCDrawer:opened") |} ] |}.
Proof.
  exact (events_are_the_tagged_contents
           [(lit "MDCDrawer", classWithEvents)] (lit "MDCDrawer")
           classWithEvents _ _ eq_refl eq_refl eq_refl).
Defined.

